(** * The image-generation worker (worker/src/index.ts)

    A shallow embedding of the worker's request handler: the prompt
    composer, the origin policy, the input clamps and [fetch] itself,
    followed by the properties of the specification that they decide.

    Strings are sequences of UTF-16 code units, as in the language, so
    [length] is [String.prototype.length].  Numbers are the IEEE values the
    handler can tell apart: NaN, the two infinities and the finite values,
    the latter taken as rationals.  Every finite double is a rational and
    [Math.round], [Math.floor], [Math.min], [Math.max] and the comparisons
    are exact on doubles, so a law proved for all rationals holds for all
    doubles; the two zeros are identified, as [===] does. *)

From stdpp Require Import gmap strings list.
From Stdlib Require Import Ascii QArith Qround Lqa.

Set Default Proof Using "Type".
Set Warnings "-clear-no-such-hyp".
Local Open Scope N_scope.

(** ** Strings *)

Definition code_unit := N.
Definition jsstring := list code_unit.

(** A string literal of the source; every literal of the worker is ASCII. *)
Definition lit (s : string) : jsstring :=
  N_of_ascii <$> String.list_ascii_of_string s.

(** The line terminator inside a template literal (always U+000A). *)
Definition LF : jsstring := [10].

(** [WhiteSpace] and [LineTerminator] code points, what [trim] strips. *)
Definition is_white_space (c : code_unit) : bool :=
  (c =? 9) || (c =? 10) || (c =? 11) || (c =? 12) || (c =? 13) || (c =? 32)
  || (c =? 160) || (c =? 5760) || ((8192 <=? c) && (c <=? 8202))
  || (c =? 8232) || (c =? 8233) || (c =? 8239) || (c =? 8287)
  || (c =? 12288) || (c =? 65279).

Fixpoint trimStart (s : jsstring) : jsstring :=
  match s with
  | c :: r => if is_white_space c then trimStart r else s
  | [] => []
  end.

Definition trimEnd (s : jsstring) : jsstring := rev (trimStart (rev s)).

(** [String.prototype.trim] *)
Definition trim (s : jsstring) : jsstring := trimEnd (trimStart s).

(** [s.slice(start)] for [0 <= start] *)
Definition slice (s : jsstring) (start : nat) : jsstring := drop start s.

Fixpoint startsWith (s p : jsstring) : bool :=
  match p, s with
  | [], _ => true
  | a :: p', b :: s' => (a =? b) && startsWith s' p'
  | _ :: _, [] => false
  end.

(** [s.split(sep)] for a separator of one code unit: the pieces between
    the separators, the empty ones included. *)
Fixpoint split (sep : code_unit) (s : jsstring) : list jsstring :=
  match s with
  | [] => [[]]
  | c :: r =>
      if c =? sep then [] :: split sep r
      else match split sep r with
           | p :: ps => (c :: p) :: ps
           | [] => [[c]]
           end
  end.

(** ** The prompt composer *)

Definition MAX_PROMPT_CHARS : nat := 2048.

(** Trim to the model limit, keeping the end of the prompt. *)
Definition trimToMaxPrompt (s : jsstring) (maxChars : nat) : jsstring :=
  let t := trim s in
  if (length t <=? maxChars)%nat then t
  else slice t (length t - maxChars).

Definition antiText : jsstring :=
  lit "ABSOLUTELY NO TEXT: no letters, no words, no numbers, no symbols, no signage, no labels, no captions, "
  ++ lit "no book covers with titles, no misspellings, no gibberish. "
  ++ lit "If any sign, poster, menu, label, packaging, screen, or book spine appears, it must be BLANK and UNREADABLE. "
  ++ lit "No logos, no watermark, no signature.".

Definition avoidTextProps : jsstring :=
  lit "Avoid text-bearing elements: posters, banners, street signs, storefront signs, menus, UI screens, labels, packaging, "
  ++ lit "newspapers, magazines, chalkboards, whiteboards, license plates, book spines with titles. Prefer plain surfaces and simple shapes.".

Definition cropSafe : jsstring :=
  lit "Keep key subjects centered with generous margins; avoid important details near edges (crop-safe 16:9).".

Definition baseSafety : jsstring :=
  lit "Family-friendly. Natural proportions. No gore. No violence. No weapons. No horror imagery.".

Definition storybook : jsstring :=
  lit "Storybook illustration, warm cinematic lighting, clean composition, soft depth of field, high detail.".

Definition animated3d : jsstring :=
  lit "High-quality 3D animated family film look, soft global illumination, warm rim light, detailed materials, subtle subsurface scattering, "
  ++ lit "clean shapes, cinematic depth of field, sharp focus on subject, ultra clean render.".

(** ** Numbers *)

Inductive number : Type :=
  | NaN
  | Infinity (negative : bool)
  | Finite (q : Q).

Definition Number_isFinite (n : number) : bool :=
  match n with Finite _ => true | _ => false end.

(** [a <= b]; false as soon as one side is NaN. *)
Definition number_leb (a b : number) : bool :=
  match a, b with
  | NaN, _ | _, NaN => false
  | Infinity true, _ => true
  | _, Infinity false => true
  | Infinity false, _ => false
  | _, Infinity true => false
  | Finite p, Finite q => Qle_bool p q
  end.

Definition Math_max (a b : number) : number :=
  match a, b with
  | NaN, _ | _, NaN => NaN
  | _, _ => if number_leb a b then b else a
  end.

Definition Math_min (a b : number) : number :=
  match a, b with
  | NaN, _ | _, NaN => NaN
  | _, _ => if number_leb a b then a else b
  end.

(** [Math.round]: the nearest integer, a tie going up. *)
Definition Math_round (n : number) : number :=
  match n with
  | Finite q => Finite (inject_Z (Qfloor (q + (1 # 2))%Q))
  | _ => n
  end.

Definition Math_floor (n : number) : number :=
  match n with
  | Finite q => Finite (inject_Z (Qfloor q))
  | _ => n
  end.

Definition number_of_nat (n : nat) : number := Finite (inject_Z (Z.of_nat n)).

(** ** Values *)

(** What [JSON.parse] can produce.  An object is the finite map of its own
    properties. *)
#[warnings="-register-all"]
Inductive json : Type :=
  | JNull
  | JBool (b : bool)
  | JNum (n : number)
  | JStr (s : jsstring)
  | JArr (l : list json)
  | JObj (o : gmap jsstring json).

(** A value read from a request body: [None] is [undefined]. *)
Definition value := option json.

(** [ToBoolean] *)
Definition truthy (v : value) : bool :=
  match v with
  | None | Some JNull => false
  | Some (JBool b) => b
  | Some (JNum NaN) => false
  | Some (JNum (Finite q)) => negb (Qeq_bool q 0%Q)
  | Some (JNum (Infinity _)) => true
  | Some (JStr s) => negb (bool_decide (s = []))
  | Some (JArr _) | Some (JObj _) => true
  end.

(** [v === s] for a string [s] *)
Definition is_string (v : value) (s : jsstring) : bool :=
  match v with
  | Some (JStr t) => bool_decide (t = s)
  | _ => false
  end.

(** [v ?? d] *)
Definition nullish_or (v : value) (d : json) : json :=
  match v with
  | None | Some JNull => d
  | Some x => x
  end.

(** Whether the conversion of [v] to a string completes.  An object of
    [JSON.parse] is converted by [Object.prototype.toString] unless it has a
    property [toString] of its own; such a property is never callable, nor
    is a [valueOf] of its own, and the inherited [valueOf] returns the
    object, so the conversion ends in a [TypeError].  An array is joined,
    which converts every element other than [null]. *)
Fixpoint stringifies (v : json) : bool :=
  match v with
  | JArr l => forallb stringifies l
  | JObj o => match o !! lit "toString" with
              | Some _ => false
              | None => true
              end
  | _ => true
  end.

(** ** The input clamps *)

Definition clampInt (n : value) (min max fallback : number) : number :=
  let v := match n with
           | Some (JNum x) => if Number_isFinite x then Math_round x else fallback
           | _ => fallback
           end in
  Math_min max (Math_max min v).

Definition clampNum (n : value) (min max fallback : number) : number :=
  let v := match n with
           | Some (JNum x) => if Number_isFinite x then x else fallback
           | _ => fallback
           end in
  Math_min max (Math_max min v).

(** ** The prompt composer, continued *)

Definition styleLine (style : json) : jsstring :=
  if is_string (Some style) (lit "animated3d") then animated3d else storybook.

(** The template literal [full] of [buildStyledPrompt]: the substitutions
    and the line terminators between them, in the order of the source. *)
Definition buildStyledPrompt_full (userPrompt : jsstring) (style : json) : jsstring :=
  trim userPrompt ++ LF ++ LF
  ++ cropSafe ++ LF
  ++ styleLine style ++ LF
  ++ antiText ++ LF
  ++ avoidTextProps ++ LF
  ++ baseSafety.

Definition buildStyledPrompt (userPrompt : jsstring) (style : json) : jsstring :=
  trimToMaxPrompt (buildStyledPrompt_full userPrompt style) MAX_PROMPT_CHARS.

(** ** Text, exceptions and the platform *)

(** Text that may embed the runtime's conversion of a value to a string
    ([String(v)], a template substitution, a header value).  The conversion
    of a string is the string; that of any other value is kept as
    [StringOf v], its digits left to the runtime. *)
Inductive piece : Type :=
  | Chars (s : jsstring)
  | StringOf (v : json).

Definition jstext := list piece.

Definition text (s : string) : jstext := [Chars (lit s)].

Definition ToString (v : json) : jstext :=
  match v with
  | JStr s => [Chars s]
  | _ => [StringOf v]
  end.

(** A thrown value, as far as a [catch] of the handler looks at it: whether
    it is truthy, its [message] property and [String(e)], for the values
    that convert to a string. *)
Record thrown : Type := {
  thrown_truthy : bool;
  thrown_message : value;
  thrown_string : jsstring;
}.

Definition TypeError (message : string) : thrown :=
  {| thrown_truthy := true;
     thrown_message := Some (JStr (lit message));
     thrown_string := lit "TypeError: " ++ lit message |}.

(** What [env.AI.run] resolves with: a plain value, or binary image data. *)
Inductive ai_result : Type :=
  | AiValue (v : value)
  | AiBinary (data : list Byte.byte).

(** A field of the parameter object handed to [env.AI.run]. *)
Inductive arg : Type :=
  | ArgText (t : jstext)
  | ArgNumber (n : number).

(** The handler as a tree of its calls into the platform: the generation
    capability, [atob], and the [Headers] constructor applied to the headers
    of a response.  Each may throw; what it answers is the platform's. *)
Inductive Prog (A : Type) : Type :=
  | Ret (a : A)
  | Raise (e : thrown)
  | AiRun (model : jsstring) (inputs : gmap string arg)
          (k : thrown + ai_result → Prog A)
  | Atob (data : jsstring) (k : thrown + list Byte.byte → Prog A)
  | NewHeaders (init : list (string * jstext)) (k : option thrown → Prog A).

Arguments Ret {A} a.
Arguments Raise {A} e.
Arguments AiRun {A} model inputs k.
Arguments Atob {A} data k.
Arguments NewHeaders {A} init k.

Fixpoint bind {A B : Type} (m : Prog A) (f : A → Prog B) : Prog B :=
  match m with
  | Ret a => f a
  | Raise e => Raise e
  | AiRun model inputs k => AiRun model inputs (λ r, bind (k r) f)
  | Atob data k => Atob data (λ r, bind (k r) f)
  | NewHeaders init k => NewHeaders init (λ r, bind (k r) f)
  end.

#[global] Instance Prog_ret : MRet Prog := @Ret.
#[global] Instance Prog_bind : MBind Prog := λ A B f m, bind m f.

(** [try { m } catch (e) { h e }] *)
Fixpoint try_catch {A : Type} (m : Prog A) (h : thrown → Prog A) : Prog A :=
  match m with
  | Ret a => Ret a
  | Raise e => h e
  | AiRun model inputs k => AiRun model inputs (λ r, try_catch (k r) h)
  | Atob data k => Atob data (λ r, try_catch (k r) h)
  | NewHeaders init k => NewHeaders init (λ r, try_catch (k r) h)
  end.

Definition settle {A : Type} (r : thrown + A) : Prog A :=
  match r with
  | inl e => Raise e
  | inr a => Ret a
  end.

(** [await env.AI.run(model, inputs)] *)
Definition ai_run (model : jsstring) (inputs : gmap string arg) : Prog ai_result :=
  AiRun model inputs settle.

Definition atob (data : jsstring) : Prog (list Byte.byte) := Atob data settle.

(** A template substitution [${v}] evaluated by the handler itself. *)
Definition substitution (v : json) : Prog jstext :=
  if stringifies v then Ret (ToString v)
  else Raise (TypeError "Cannot convert object to primitive value").

(** The outcomes of a handler: the responses it can return and the values
    it can throw, over all answers of the platform. *)
Inductive returns {A : Type} : Prog A → A → Prop :=
  | returns_Ret a : returns (Ret a) a
  | returns_AiRun model inputs k r a :
      returns (k r) a → returns (AiRun model inputs k) a
  | returns_Atob data k r a :
      returns (k r) a → returns (Atob data k) a
  | returns_NewHeaders init k r a :
      returns (k r) a → returns (NewHeaders init k) a.

Inductive throws {A : Type} : Prog A → thrown → Prop :=
  | throws_Raise e : throws (Raise e) e
  | throws_AiRun model inputs k r e :
      throws (k r) e → throws (AiRun model inputs k) e
  | throws_Atob data k r e :
      throws (k r) e → throws (Atob data k) e
  | throws_NewHeaders init k r e :
      throws (k r) e → throws (NewHeaders init k) e.

(** The invocations of the generation capability a handler can make. *)
Inductive runs_ai {A : Type} : Prog A → jsstring → gmap string arg → Prop :=
  | runs_ai_here model inputs k : runs_ai (AiRun model inputs k) model inputs
  | runs_ai_AiRun model inputs k r model' inputs' :
      runs_ai (k r) model' inputs' → runs_ai (AiRun model inputs k) model' inputs'
  | runs_ai_Atob data k r model' inputs' :
      runs_ai (k r) model' inputs' → runs_ai (Atob data k) model' inputs'
  | runs_ai_NewHeaders init k r model' inputs' :
      runs_ai (k r) model' inputs' → runs_ai (NewHeaders init k) model' inputs'.

(** ** Requests, responses and configuration *)

Definition lower_ascii (a : ascii) : ascii :=
  let n := nat_of_ascii a in
  if ((65 <=? n) && (n <=? 90))%nat then ascii_of_nat (n + 32) else a.

(** Header names are case-insensitive: a [Headers] object keeps them in
    lower case. *)
Fixpoint lower (s : string) : string :=
  match s with
  | EmptyString => EmptyString
  | String a r => String (lower_ascii a) (lower r)
  end.

Definition Headers_get {V : Type} (h : gmap string V) (name : string) : option V :=
  h !! lower name.

Definition Headers_set {V : Type} (h : gmap string V) (name : string) (v : V) : gmap string V :=
  <[lower name := v]> h.

(** A request: its method, the path of [new URL(request.url)], its headers,
    and what [request.json()] settles with ([None]: it rejects). *)
Record Request : Type := {
  request_method : jsstring;
  request_pathname : jsstring;
  request_headers : gmap string jsstring;
  request_json : option json;
}.

(** The configuration; the [AI] binding is the [AiRun] call of [Prog]. *)
Record Env : Type := {
  API_KEY : option jsstring;
  ALLOWED_ORIGIN : option jsstring;
  ALLOWED_ORIGINS : option jsstring;
}.

Inductive Body : Type :=
  | BodyNull
  | BodyText (t : jstext)
  | BodyBytes (data : list Byte.byte)
  | BodyAi (r : ai_result).

Record ResponseInit : Type := {
  init_status : N;
  init_headers : option (list (string * jstext));
}.

Record Response : Type := {
  response_status : N;
  response_body : Body;
  response_headers : gmap string jstext;
}.

(** Truthiness of a string, and of an optional string of the configuration. *)
Definition nonempty (s : jsstring) : bool := negb (bool_decide (s = [])).

Definition or_empty (s : option jsstring) : jsstring := default [] s.

(** ** The origin policy *)

(** The origins the allowlist starts from. *)
Definition default_origins : list jsstring :=
  [ lit "http://localhost:8080";
    lit "http://127.0.0.1:8080";
    lit "http://[::1]:8080";
    lit "https://www.webhtml5.info";
    lit "https://webhtml5.info" ].

(** The body of the loop over [env.ALLOWED_ORIGINS.split(",")]. *)
Definition add_part (s : gset jsstring) (part : jsstring) : gset jsstring :=
  let o := trim part in
  if nonempty o then {[o]} ∪ s else s.

Definition parseAllowedOrigins (env : Env) : gset jsstring :=
  let s : gset jsstring := list_to_set default_origins in
  let s := match ALLOWED_ORIGIN env with
           | Some o => if nonempty (trim o) then {[trim o]} ∪ s else s
           | None => s
           end in
  match ALLOWED_ORIGINS env with
  | Some l => if nonempty (trim l) then foldl add_part s (split 44 l) else s
  | None => s
  end.

(** The entries of the record [corsHeaders] returns, in insertion order. *)
Definition corsHeaders (request : Request) (env : Env) : list (string * jsstring) :=
  let origin := or_empty (Headers_get (request_headers request) "Origin") in
  let allowed := parseAllowedOrigins env in
  let headers :=
    [ ("Vary"%string, lit "Origin");
      ("Access-Control-Allow-Methods"%string, lit "POST, OPTIONS");
      ("Access-Control-Allow-Headers"%string, lit "Content-Type, Authorization");
      ("Access-Control-Max-Age"%string, lit "86400");
      ("Access-Control-Expose-Headers"%string,
       lit "X-Model, X-Steps, X-Style, X-Num-Steps, X-Guidance, X-Prompt-Chars") ] in
  if nonempty origin && bool_decide (origin ∈ allowed)
  then headers ++ [("Access-Control-Allow-Origin"%string, origin)]
  else headers.

(** ** The response assembler *)

(** The entries of a record set one after the other on [h]: the loop
    [for (const [k, v] of Object.entries(ch)) headers.set(k, v)]. *)
Definition overlay (h : gmap string jstext) (ch : list (string * jsstring)) : gmap string jstext :=
  foldl (λ h kv, Headers_set h kv.1 [Chars kv.2]) h ch.

(** The [Headers] object of a record whose names differ beyond case, its
    values as they were given. *)
Definition of_record (entries : list (string * jstext)) : gmap string jstext :=
  foldl (λ h kv, Headers_set h kv.1 kv.2) ∅ entries.

(** [new Headers(init)]: empty without [init]; otherwise the platform takes
    the entries of the record or throws on a value it rejects. *)
Definition new_Headers (init : option (list (string * jstext))) : Prog (gmap string jstext) :=
  match init with
  | None => Ret ∅
  | Some entries =>
      NewHeaders entries (λ r,
        match r with
        | Some e => Raise e
        | None => Ret (of_record entries)
        end)
  end.

(** [response_headers] are the headers the handler sets; the [Content-Type]
    that [new Response] gives a text body without one is the platform's. *)
Definition respond (request : Request) (env : Env) (body : Body) (init : ResponseInit)
  : Prog Response :=
  headers ← new_Headers (init_headers init);
  let ch := corsHeaders request env in
  Ret {| response_status := init_status init;
         response_body := body;
         response_headers := overlay headers ch |}.

Definition status_only (status : N) : ResponseInit :=
  {| init_status := status; init_headers := None |}.

(** ** The handler *)

(** [o.name] for a value [o] that is not [null], at the names the handler
    reads: only an object has such a property. *)
Definition prop (o : json) (name : string) : value :=
  match o with
  | JObj m => m !! lit name
  | _ => None
  end.

(** The spread [...(typeof body.seed === "number" ? { seed: Math.floor(body.seed) } : {})] *)
Definition seed_spread (body : json) : gmap string arg :=
  match prop body "seed" with
  | Some (JNum seed) => {[ "seed"%string := ArgNumber (Math_floor seed) ]}
  | _ => ∅
  end.

(** [msg] of the two [catch] blocks *)
Definition error_message (e : thrown) : jstext :=
  if thrown_truthy e && (truthy (thrown_message e) || nonempty (thrown_string e))
  then match thrown_message e with
       | Some m => if truthy (Some m) then ToString m else [Chars (thrown_string e)]
       | None => [Chars (thrown_string e)]
       end
  else text "AI run error".

Definition upstream_error (request : Request) (env : Env) (e : thrown) : Prog Response :=
  respond request env (BodyText (Chars (lit "Upstream AI error: ") :: error_message e))
    (status_only 502).

Definition flux_model : jsstring := lit "@cf/black-forest-labs/flux-1-schnell".
Definition sdxl_model : jsstring := lit "@cf/stabilityai/stable-diffusion-xl-base-1.0".

Definition strongNoTextNegative : jsstring :=
  lit "text, letters, words, typography, caption, subtitle, title, logo, watermark, signature, "
  ++ lit "signage, street sign, label, menu, poster, banner, book cover text, misspelling, gibberish, "
  ++ lit "license plate, UI, screen text, packaging text, "
  ++ lit "low quality, blurry, grain, noise, deformed, malformed hands, extra fingers".

(** The FLUX branch of [fetch]. *)
Definition fetch_flux (request : Request) (env : Env) (body style : json) (prompt : jsstring)
  : Prog Response :=
  let steps := clampInt (prop body "steps") (Finite 1) (Finite 8) (Finite 6) in
  try_catch
    (response ← ai_run flux_model
       (seed_spread body ∪
        {[ "prompt"%string := ArgText [Chars prompt];
           "steps"%string := ArgNumber steps ]});
     let b64 := match response with
                | AiValue (Some o) => prop o "image"
                | _ => None
                end in
     match b64 with
     | Some (JStr s) =>
         if nonempty s then
           bytes ← atob s;
           respond request env (BodyBytes bytes)
             {| init_status := 200;
                init_headers := Some
                  [ ("Content-Type"%string, text "image/jpeg");
                    ("Cache-Control"%string, text "no-store");
                    ("X-Model"%string, text "flux-1-schnell");
                    ("X-Steps"%string, ToString (JNum steps));
                    ("X-Style"%string, ToString style);
                    ("X-Prompt-Chars"%string,
                     ToString (JNum (number_of_nat (length prompt)))) ] |}
         else respond request env (BodyText (text "Model returned no image")) (status_only 502)
     | _ => respond request env (BodyText (text "Model returned no image")) (status_only 502)
     end)
    (upstream_error request env).

(** The SDXL branch of [fetch].  The parameter object is built before the
    [try]: what the substitution of [body.negative_prompt] throws leaves
    the handler. *)
Definition fetch_sdxl (request : Request) (env : Env) (body style : json) (prompt : jsstring)
  : Prog Response :=
  let width := clampInt (prop body "width") (Finite 256) (Finite 2048) (Finite 1344) in
  let height := clampInt (prop body "height") (Finite 256) (Finite 2048) (Finite 768) in
  let num_steps := clampInt (prop body "num_steps") (Finite 1) (Finite 20) (Finite 20) in
  let guidance := clampNum (prop body "guidance") (Finite 1) (Finite 20) (Finite (15 # 2)) in
  negative_prompt ←
    match prop body "negative_prompt" with
    | Some n =>
        if truthy (Some n)
        then n' ← substitution n;
             Ret (n' ++ [Chars (lit ", "); Chars strongNoTextNegative])
        else Ret [Chars strongNoTextNegative]
    | None => Ret [Chars strongNoTextNegative]
    end;
  let inputs : gmap string arg :=
    seed_spread body ∪
    {[ "prompt"%string := ArgText [Chars prompt];
       "negative_prompt"%string := ArgText negative_prompt;
       "width"%string := ArgNumber width;
       "height"%string := ArgNumber height;
       "num_steps"%string := ArgNumber num_steps;
       "guidance"%string := ArgNumber guidance ]} in
  try_catch
    (imgBytes ← ai_run sdxl_model inputs;
     respond request env (BodyAi imgBytes)
       {| init_status := 200;
          init_headers := Some
            [ ("Content-Type"%string, text "image/jpeg");
              ("Cache-Control"%string, text "no-store");
              ("X-Model"%string, text "sdxl-base-1.0");
              ("X-Num-Steps"%string, ToString (JNum num_steps));
              ("X-Guidance"%string, ToString (JNum guidance));
              ("X-Style"%string, ToString style);
              ("X-Prompt-Chars"%string,
               ToString (JNum (number_of_nat (length prompt)))) ] |})
    (upstream_error request env).

(** [fetch] from [let body] on: what a request that has passed routing and
    authentication goes through. *)
Definition fetch_generate (request : Request) (env : Env) : Prog Response :=
  match request_json request with
  | None => respond request env (BodyText (text "Invalid JSON")) (status_only 400)
  | Some JNull => Raise (TypeError "Cannot read properties of null (reading 'prompt')")
  | Some body =>
      if negb (truthy (prop body "prompt"))
      then respond request env (BodyText (text "prompt is required")) (status_only 400)
      else
        match prop body "prompt" with
        | Some (JStr userPrompt) =>
            if (length (trim userPrompt) <? 3)%nat
            then respond request env (BodyText (text "prompt is required")) (status_only 400)
            else
              let model := nullish_or (prop body "model") (JStr (lit "flux")) in
              let style := nullish_or (prop body "style") (JStr (lit "storybook")) in
              let prompt := buildStyledPrompt userPrompt style in
              if is_string (Some model) (lit "flux")
              then fetch_flux request env body style prompt
              else fetch_sdxl request env body style prompt
        | _ => Raise (TypeError "body.prompt.trim is not a function")
        end
  end.

Definition fetch (request : Request) (env : Env) : Prog Response :=
  if bool_decide (request_pathname request = lit "/__version") then
    respond request env
      (BodyText (text "ebook-image-forge v5 (prompt<=2048 + resilient CORS + stronger no-text)"))
      (status_only 200)
  else if bool_decide (request_method request = lit "OPTIONS") then
    respond request env BodyNull (status_only 204)
  else if negb (bool_decide (request_pathname request = lit "/api/generate")) then
    respond request env (BodyText (text "Not found")) (status_only 404)
  else if negb (bool_decide (request_method request = lit "POST")) then
    respond request env (BodyText (text "Method not allowed")) (status_only 405)
  else if nonempty (or_empty (API_KEY env)) then
    let auth := or_empty (Headers_get (request_headers request) "Authorization") in
    let token := if startsWith auth (lit "Bearer ") then slice auth 7 else [] in
    if negb (bool_decide (Some token = API_KEY env))
    then respond request env (BodyText (text "Unauthorized")) (status_only 401)
    else fetch_generate request env
  else fetch_generate request env.

(** ** The vocabulary of the specification *)

(** The parts with [sep] between each adjacent pair. *)
Fixpoint join (sep : jsstring) (parts : list jsstring) : jsstring :=
  match parts with
  | [] => []
  | [p] => p
  | p :: ps => p ++ sep ++ join sep ps
  end.

(** The fixed clauses of the composed prompt, in their order. *)
Definition clauses (style : json) : list jsstring :=
  [cropSafe; styleLine style; antiText; avoidTextProps; baseSafety].

(** The same number: NaN is itself, rationals are compared by value. *)
Definition same_number (a b : number) : Prop :=
  match a, b with
  | NaN, NaN => True
  | Infinity s, Infinity t => s = t
  | Finite p, Finite q => (p == q)%Q
  | _, _ => False
  end.

Definition is_integer (n : number) : bool :=
  match n with
  | Finite q => Qeq_bool (inject_Z (Qfloor q)) q
  | _ => false
  end.

(** [min <= n <= max] *)
Definition within (n min max : number) : Prop :=
  number_leb min n = true ∧ number_leb n max = true.

(** The saturating step both clamps end with, and the value they feed it. *)
Definition clamp (min max v : number) : number := Math_min max (Math_max min v).

Definition finite_or (round : bool) (n : value) (fallback : number) : number :=
  match n with
  | Some (JNum x) =>
      if Number_isFinite x then (if round then Math_round x else x) else fallback
  | _ => fallback
  end.

(** The headers [h] of a response to [request] carry the full CORS set:
    the five fixed headers, and [Access-Control-Allow-Origin] echoing the
    request's origin exactly when the allowlist has it. *)
Definition full_cors (request : Request) (env : Env) (h : gmap string jstext) : Prop :=
  Headers_get h "Vary" = Some (text "Origin")
  ∧ Headers_get h "Access-Control-Allow-Methods" = Some (text "POST, OPTIONS")
  ∧ Headers_get h "Access-Control-Allow-Headers" = Some (text "Content-Type, Authorization")
  ∧ Headers_get h "Access-Control-Max-Age" = Some (text "86400")
  ∧ Headers_get h "Access-Control-Expose-Headers"
    = Some (text "X-Model, X-Steps, X-Style, X-Num-Steps, X-Guidance, X-Prompt-Chars")
  ∧ Headers_get h "Access-Control-Allow-Origin"
    = match Headers_get (request_headers request) "Origin" with
      | Some origin =>
          if bool_decide (origin ∈ parseAllowedOrigins env) then Some [Chars origin] else None
      | None => None
      end.

(** The allowlist as the specification words it: the defaults, the trimmed
    single origin, and the trimmed entries of the comma-separated list, the
    empty ones dropped. *)
Definition allowlist_spec (env : Env) (o : jsstring) : Prop :=
  o ∈ default_origins
  ∨ (∃ s, ALLOWED_ORIGIN env = Some s ∧ o = trim s ∧ o ≠ [])
  ∨ (∃ s, ALLOWED_ORIGINS env = Some s ∧ o ∈ trim <$> split 44 s ∧ o ≠ []).

(** ** Sample requests and configurations *)

Definition no_config : Env :=
  {| API_KEY := None; ALLOWED_ORIGIN := None; ALLOWED_ORIGINS := None |}.

Definition empty_secret : Env :=
  {| API_KEY := Some []; ALLOWED_ORIGIN := None; ALLOWED_ORIGINS := None |}.

Definition secret_config : Env :=
  {| API_KEY := Some (lit "s3cret"); ALLOWED_ORIGIN := None; ALLOWED_ORIGINS := None |}.

Definition origins_config : Env :=
  {| API_KEY := None;
     ALLOWED_ORIGIN := Some (lit " https://books.example ");
     ALLOWED_ORIGINS := Some (lit "https://a.example, ,https://b.example") |}.

(** [{"prompt": "a fox in a forest"}] *)
Definition fox_body : json :=
  JObj {[ lit "prompt" := JStr (lit "a fox in a forest") ]}.

(** [{"prompt": "a fox in a forest", "seed": 3.5}] *)
Definition seeded_body : json :=
  JObj {[ lit "prompt" := JStr (lit "a fox in a forest");
          lit "seed" := JNum (Finite (7 # 2)) ]}.

(** [{"prompt": 123}] *)
Definition numeric_prompt_body : json :=
  JObj {[ lit "prompt" := JNum (Finite 123) ]}.

Definition post_generate (headers : gmap string jsstring) (body : json) : Request :=
  {| request_method := lit "POST";
     request_pathname := lit "/api/generate";
     request_headers := headers;
     request_json := Some body |}.

Definition bearer_s3cret : gmap string jsstring :=
  {[ "authorization"%string := lit "Bearer s3cret" ]}.

Definition from_origin (origin : string) : gmap string jsstring :=
  {[ "origin"%string := lit origin ]}.

Definition options_version : Request :=
  {| request_method := lit "OPTIONS";
     request_pathname := lit "/__version";
     request_headers := from_origin "https://webhtml5.info";
     request_json := None |}.

Definition options_generate : Request :=
  {| request_method := lit "OPTIONS";
     request_pathname := lit "/api/generate";
     request_headers := from_origin "https://webhtml5.info";
     request_json := None |}.

Definition get_missing : Request :=
  {| request_method := lit "GET";
     request_pathname := lit "/missing";
     request_headers := from_origin "https://b.example";
     request_json := None |}.

(** The answer to a request for a path that is not served. *)
Definition not_found (request : Request) (env : Env) : Response :=
  {| response_status := 404;
     response_body := BodyText (text "Not found");
     response_headers := overlay ∅ (corsHeaders request env) |}.

(** The parameters of the FLUX call for [seeded_body]. *)
Definition seeded_inputs : gmap string arg :=
  seed_spread seeded_body ∪
  {[ "prompt"%string :=
       ArgText [Chars (buildStyledPrompt (lit "a fox in a forest") (JStr (lit "storybook")))];
     "steps"%string := ArgNumber (Finite 6) ]}.

(** ** The parts of the handler, for the properties below *)

(** [ToIntegerOrInfinity] of a finite number: towards zero. *)
Definition truncate (q : Q) : Z :=
  if Qle_bool 0 q then Qfloor q else Qceiling q.

(** [s.slice(start)] for a start that is any number: [NaN] is 0, a start
    below zero counts from the end, and nothing is left from the length
    on. *)
Definition slice_number (s : jsstring) (start : number) : jsstring :=
  match start with
  | NaN => s
  | Infinity negative => if negative then s else []
  | Finite q =>
      let k := truncate q in
      if (k <? 0)%Z then drop (length s - Z.to_nat (- k)) s else drop (Z.to_nat k) s
  end.

(** [n - m] for a length [n] *)
Definition length_minus (n : nat) (m : number) : number :=
  match m with
  | NaN => NaN
  | Infinity negative => Infinity (negb negative)
  | Finite q => Finite (inject_Z (Z.of_nat n) - q)
  end.

(** [trimToMaxPrompt] for a limit that is any number, as its parameter
    allows; [trimToMaxPrompt s n] is this function at the limits that are
    lengths.  The difference [t.length - maxChars] is exact for every limit
    that is an integer. *)
Definition trimToMaxPrompt_number (s : jsstring) (maxChars : number) : jsstring :=
  let t := trim s in
  if number_leb (number_of_nat (length t)) maxChars then t
  else slice_number t (length_minus (length t) maxChars).

(** A header value that a [Headers] object holds as it was given: printable
    ASCII with no space at either end.  The constructor strips the white
    space around a value, and what it does with other characters is the
    platform's. *)
Definition verbatim_header_value (s : jsstring) : bool :=
  forallb (λ c, (32 <=? c) && (c <=? 126)) s
  && negb (bool_decide (head s = Some 32))
  && negb (bool_decide (last s = Some 32)).

Definition cors_names : list string :=
  [ "vary"; "access-control-allow-methods"; "access-control-allow-headers";
    "access-control-max-age"; "access-control-expose-headers";
    "access-control-allow-origin" ]%string.

Definition VERSION_TEXT : jstext :=
  text "ebook-image-forge v5 (prompt<=2048 + resilient CORS + stronger no-text)".

(** The response [respond] builds when [init] has a status only. *)
Definition plain_response (request : Request) (env : Env) (status : N) (body : Body) : Response :=
  {| response_status := status;
     response_body := body;
     response_headers := overlay ∅ (corsHeaders request env) |}.

(** The request carries the credentials the configuration asks for. *)
Definition authorized (request : Request) (env : Env) : Prop :=
  match API_KEY env with
  | Some (c :: key) =>
      Headers_get (request_headers request) "Authorization"
      = Some (lit "Bearer " ++ c :: key)
  | _ => True
  end.

#[local] Instance authorized_dec request env : Decision (authorized request env).
Proof. unfold authorized. destruct (API_KEY env) as [[|c key]|]; apply _. Defined.

(** The prompt of a body that passes validation. *)
Definition accepted_prompt (body : json) : option jsstring :=
  match prop body "prompt" with
  | Some (JStr s) => if (3 <=? length (trim s))%nat then Some s else None
  | _ => None
  end.

(** A body whose [prompt] cannot be validated: [null], or a prompt that is
    truthy and not a string. *)
Definition malformed_prompt (body : json) : Prop :=
  body = JNull
  ∨ (truthy (prop body "prompt") = true ∧ ∀ s, prop body "prompt" ≠ Some (JStr s)).

Definition body_model (body : json) : json :=
  nullish_or (prop body "model") (JStr (lit "flux")).

Definition body_style (body : json) : json :=
  nullish_or (prop body "style") (JStr (lit "storybook")).

(** [fetch] from the composed prompt on. *)
Definition dispatch (request : Request) (env : Env) (body : json) (userPrompt : jsstring)
  : Prog Response :=
  if is_string (Some (body_model body)) (lit "flux")
  then fetch_flux request env body (body_style body)
         (buildStyledPrompt userPrompt (body_style body))
  else fetch_sdxl request env body (body_style body)
         (buildStyledPrompt userPrompt (body_style body)).

Definition routed (request : Request) : Prop :=
  request_pathname request = lit "/api/generate" ∧ request_method request = lit "POST".

(** No call of the generation capability on any path. *)
Inductive ai_free {A : Type} : Prog A → Prop :=
  | ai_free_Ret a : ai_free (Ret a)
  | ai_free_Raise e : ai_free (Raise e)
  | ai_free_Atob data k : (∀ r, ai_free (k r)) → ai_free (Atob data k)
  | ai_free_NewHeaders init k : (∀ r, ai_free (k r)) → ai_free (NewHeaders init k).

(** At most one call of the generation capability on every path. *)
Inductive calls_once {A : Type} : Prog A → Prop :=
  | calls_once_free m : ai_free m → calls_once m
  | calls_once_AiRun model inputs k :
      (∀ r, ai_free (k r)) → calls_once (AiRun model inputs k).

(** The parameter objects of the two branches. *)
Definition flux_inputs (body : json) (prompt : jsstring) : gmap string arg :=
  seed_spread body ∪
  {[ "prompt"%string := ArgText [Chars prompt];
     "steps"%string :=
       ArgNumber (clampInt (prop body "steps") (Finite 1) (Finite 8) (Finite 6)) ]}.

(** The substitution of [body.negative_prompt] throws. *)
Definition negative_prompt_throws (body : json) : bool :=
  match prop body "negative_prompt" with
  | Some n => truthy (Some n) && negb (stringifies n)
  | None => false
  end.

(** The negative prompt, when that substitution completes. *)
Definition sdxl_negative_prompt (body : json) : jstext :=
  match prop body "negative_prompt" with
  | Some n =>
      if truthy (Some n)
      then ToString n ++ [Chars (lit ", "); Chars strongNoTextNegative]
      else [Chars strongNoTextNegative]
  | None => [Chars strongNoTextNegative]
  end.

Definition sdxl_inputs (body : json) (prompt : jsstring) : gmap string arg :=
  seed_spread body ∪
  {[ "prompt"%string := ArgText [Chars prompt];
     "negative_prompt"%string := ArgText (sdxl_negative_prompt body);
     "width"%string :=
       ArgNumber (clampInt (prop body "width") (Finite 256) (Finite 2048) (Finite 1344));
     "height"%string :=
       ArgNumber (clampInt (prop body "height") (Finite 256) (Finite 2048) (Finite 768));
     "num_steps"%string :=
       ArgNumber (clampInt (prop body "num_steps") (Finite 1) (Finite 20) (Finite 20));
     "guidance"%string :=
       ArgNumber (clampNum (prop body "guidance") (Finite 1) (Finite 20) (Finite (15 # 2))) ]}.

(** The answers of the platform: the generation capability, [atob], and
    whether the [Headers] constructor rejects a record. *)
Record Platform : Type := {
  platform_ai : jsstring → gmap string arg → thrown + ai_result;
  platform_atob : jsstring → thrown + list Byte.byte;
  platform_headers : list (string * jstext) → option thrown;
}.

(** The handler run against a platform: the value it returns or throws. *)
Fixpoint run {A : Type} (pf : Platform) (m : Prog A) : thrown + A :=
  match m with
  | Ret a => inr a
  | Raise e => inl e
  | AiRun model inputs k => run pf (k (platform_ai pf model inputs))
  | Atob data k => run pf (k (platform_atob pf data))
  | NewHeaders init k => run pf (k (platform_headers pf init))
  end.

(** [String(e.message || e)] of a [catch] block completes, as it does for
    an error whose message is a string. *)
Definition message_prints (e : thrown) : Prop :=
  match thrown_message e with
  | Some m => stringifies m = true
  | None => True
  end.

(** Whatever the platform throws is such a value. *)
Definition errors_print (pf : Platform) : Prop :=
  (∀ model inputs e, platform_ai pf model inputs = inl e → message_prints e)
  ∧ (∀ data e, platform_atob pf data = inl e → message_prints e)
  ∧ (∀ init e, platform_headers pf init = Some e → message_prints e).

(** The answer to a failure of the generation capability. *)
Definition bad_gateway (request : Request) (env : Env) (e : thrown) : Response :=
  plain_response request env 502
    (BodyText (Chars (lit "Upstream AI error: ") :: error_message e)).

(** [response?.image] when it is a string that is not empty. *)
Definition flux_image (response : ai_result) : option jsstring :=
  match response with
  | AiValue (Some o) =>
      match prop o "image" with
      | Some (JStr s) => if nonempty s then Some s else None
      | _ => None
      end
  | _ => None
  end.

(** The response-specific headers of the two image responses. *)
Definition flux_headers (body style : json) (prompt : jsstring) : list (string * jstext) :=
  [ ("Content-Type"%string, text "image/jpeg");
    ("Cache-Control"%string, text "no-store");
    ("X-Model"%string, text "flux-1-schnell");
    ("X-Steps"%string,
     ToString (JNum (clampInt (prop body "steps") (Finite 1) (Finite 8) (Finite 6))));
    ("X-Style"%string, ToString style);
    ("X-Prompt-Chars"%string, ToString (JNum (number_of_nat (length prompt)))) ].

Definition sdxl_headers (body style : json) (prompt : jsstring) : list (string * jstext) :=
  [ ("Content-Type"%string, text "image/jpeg");
    ("Cache-Control"%string, text "no-store");
    ("X-Model"%string, text "sdxl-base-1.0");
    ("X-Num-Steps"%string,
     ToString (JNum (clampInt (prop body "num_steps") (Finite 1) (Finite 20) (Finite 20))));
    ("X-Guidance"%string,
     ToString (JNum (clampNum (prop body "guidance") (Finite 1) (Finite 20) (Finite (15 # 2)))));
    ("X-Style"%string, ToString style);
    ("X-Prompt-Chars"%string, ToString (JNum (number_of_nat (length prompt)))) ].

Definition image_response (request : Request) (env : Env) (body : Body)
    (headers : list (string * jstext)) : Response :=
  {| response_status := 200;
     response_body := body;
     response_headers := overlay (of_record headers) (corsHeaders request env) |}.

(** The names [corsHeaders] lists in [Access-Control-Expose-Headers]. *)
Definition exposed_names : list string :=
  [ "X-Model"; "X-Steps"; "X-Style"; "X-Num-Steps"; "X-Guidance"; "X-Prompt-Chars" ]%string.

(** ** More sample requests, bodies and platforms *)

(** A prompt of 1200 letters. *)
Definition long_prompt : jsstring := replicate 1200 97.

Definition get_version : Request :=
  {| request_method := lit "GET";
     request_pathname := lit "/__version";
     request_headers := ∅;
     request_json := None |}.

(** [{"prompt": " hi "}] *)
Definition short_prompt_body : json :=
  JObj {[ lit "prompt" := JStr (lit " hi ") ]}.

(** [{"prompt": "a fox in a forest", "model": "sdxl", "width": 99999, "guidance": -5}] *)
Definition sdxl_body : json :=
  JObj {[ lit "prompt" := JStr (lit "a fox in a forest");
          lit "model" := JStr (lit "sdxl");
          lit "width" := JNum (Finite 99999);
          lit "guidance" := JNum (Finite (-5)) ]}.

(** [{"prompt": "a fox in a forest", "model": "sdxl",
      "negative_prompt": {"toString": 1}}] *)
Definition unprintable_body : json :=
  JObj {[ lit "prompt" := JStr (lit "a fox in a forest");
          lit "model" := JStr (lit "sdxl");
          lit "negative_prompt" := JObj {[ lit "toString" := JNum (Finite 1) ]} ]}.

(** The parameters of the SDXL call for [sdxl_body]. *)
Definition sdxl_body_inputs : gmap string arg :=
  sdxl_inputs sdxl_body
    (buildStyledPrompt (lit "a fox in a forest") (JStr (lit "storybook"))).

(** [new Error("rate limited")] *)
Definition rate_limited : thrown :=
  {| thrown_truthy := true;
     thrown_message := Some (JStr (lit "rate limited"));
     thrown_string := lit "Error: rate limited" |}.

(** A platform whose generation capability fails. *)
Definition failing_platform : Platform :=
  {| platform_ai := λ _ _, inl rate_limited;
     platform_atob := λ _, inr [];
     platform_headers := λ _, None |}.

(** A platform whose generation capability answers [result]. *)
Definition answering_platform (result : ai_result) : Platform :=
  {| platform_ai := λ _ _, inr result;
     platform_atob := λ _, inr [Byte.xff; Byte.xd8];
     platform_headers := λ _, None |}.

(** [{"image": "/9g="}] *)
Definition jpeg_result : ai_result :=
  AiValue (Some (JObj {[ lit "image" := JStr (lit "/9g=") ]})).

(** The image response to [seeded_body] on the FLUX branch. *)
Definition seeded_response : Response :=
  image_response (post_generate ∅ seeded_body) no_config
    (BodyBytes [Byte.xff; Byte.xd8])
    (flux_headers seeded_body (JStr (lit "storybook"))
       (buildStyledPrompt (lit "a fox in a forest") (JStr (lit "storybook")))).

(** * Properties *)

(** ** Strings *)
Local Open Scope nat_scope.

Lemma trimStart_length s : length (trimStart s) ≤ length s.
Proof. induction s as [|c r IH]; simpl; [lia|]. destruct (is_white_space c); simpl; lia. Qed.

Lemma trim_length s : length (trim s) ≤ length s.
Proof.
  unfold trim, trimEnd. rewrite length_rev.
  etrans; [apply trimStart_length|]. rewrite length_rev. apply trimStart_length.
Qed.

Lemma trimStart_snoc l c :
  is_white_space c = false → ∃ l', trimStart (l ++ [c]) = l' ++ [c].
Proof.
  intros Hc. induction l as [|a l IH]; simpl.
  - rewrite Hc. by exists [].
  - destruct (is_white_space a); [done|]. by exists (a :: l).
Qed.

Lemma trimStart_head s c r : trimStart s = c :: r → is_white_space c = false.
Proof.
  induction s as [|a s IH]; simpl; [done|].
  destruct (is_white_space a) eqn:Ha; [done|]. by intros [= <- _].
Qed.

Lemma trimStart_id c r : is_white_space c = false → trimStart (c :: r) = c :: r.
Proof. intros H. simpl. by rewrite H. Qed.

Lemma trim_head s c r : trim s = c :: r → is_white_space c = false.
Proof.
  unfold trim, trimEnd. destruct (trimStart s) as [|a t] eqn:Hs; [done|].
  pose proof (trimStart_head _ _ _ Hs) as Ha.
  simpl rev. destruct (trimStart_snoc (rev t) a Ha) as [l' ->].
  rewrite rev_app_distr. simpl. by intros [= <- _].
Qed.

(** A string with no white space at either end is left alone by [trim]. *)
Lemma trim_id c m z :
  is_white_space c = false → is_white_space z = false →
  trim (c :: m ++ [z]) = c :: m ++ [z].
Proof.
  intros Hc Hz. unfold trim, trimEnd. rewrite trimStart_id by done.
  rewrite app_comm_cons, rev_unit, trimStart_id by done.
  remember (rev (c :: m)) as l eqn:El. cbn [rev]. subst l.
  by rewrite rev_involutive.
Qed.

Lemma trimToMaxPrompt_length s n : length (trimToMaxPrompt s n) ≤ n.
Proof.
  unfold trimToMaxPrompt, slice. cbv zeta.
  destruct (Nat.leb_spec (length (trim s)) n); [done|].
  rewrite length_drop. lia.
Qed.

(** ** The composed prompt *)

Lemma template_assoc (t a b c d e : jsstring) :
  t ++ LF ++ LF ++ a ++ LF ++ b ++ LF ++ c ++ LF ++ d ++ LF ++ e
  = (t ++ LF ++ LF) ++ join LF [a; b; c; d; e].
Proof. cbn [join]. by rewrite <- !app_assoc. Qed.

Lemma full_clauses u st :
  buildStyledPrompt_full u st = (trim u ++ LF ++ LF) ++ join LF (clauses st).
Proof. apply template_assoc. Qed.

Lemma clauses_length st : length (join LF (clauses st)) ≤ 968.
Proof.
  unfold clauses, styleLine. destruct (is_string _ _); vm_compute; lia.
Qed.

Lemma full_length u st :
  length (buildStyledPrompt_full u st) = length (trim u) + 2 + length (join LF (clauses st)).
Proof. rewrite full_clauses, !length_app. simpl (length LF). lia. Qed.

Lemma clauses_last st : ∃ m, join LF (clauses st) = m ++ [46%N].
Proof.
  exists (removelast (join LF (clauses st))).
  unfold clauses, styleLine. destruct (is_string _ _); vm_compute; reflexivity.
Qed.

Lemma full_shape u st c r :
  trim u = c :: r → ∃ m, buildStyledPrompt_full u st = c :: m ++ [46%N].
Proof.
  intros Hu. rewrite full_clauses, Hu. destruct (clauses_last st) as [m ->].
  generalize (LF ++ LF). intros sep. exists ((r ++ sep) ++ m).
  by rewrite app_assoc.
Qed.

Lemma trim_full u st :
  trim u ≠ [] → trim (buildStyledPrompt_full u st) = buildStyledPrompt_full u st.
Proof.
  intros Hu. destruct (trim u) as [|c r] eqn:E; [done|].
  destruct (full_shape u st c r E) as [m ->].
  apply trim_id; [by eapply trim_head|reflexivity].
Qed.

Lemma buildStyledPrompt_blank u st :
  trim u = [] → buildStyledPrompt u st = drop 2 (buildStyledPrompt_full u st).
Proof.
  intros Hu. unfold buildStyledPrompt, buildStyledPrompt_full. rewrite Hu.
  unfold styleLine. destruct (is_string _ _); vm_compute; reflexivity.
Qed.

(** C1 (as amended).  The composed prompt never exceeds 2048 characters.
    When the concatenation is longer than 2048 characters the result is
    exactly its last 2048 characters.  When it is not longer, the result is
    the concatenation unchanged provided the trimmed user prompt is not
    empty; for a user prompt that is empty after trimming, the result is the
    concatenation without its two leading line breaks. *)
Theorem buildStyledPrompt_truncation (userPrompt : jsstring) (style : json) :
  let full := buildStyledPrompt_full userPrompt style in
  length (buildStyledPrompt userPrompt style) ≤ 2048
  ∧ (2048 < length full →
     buildStyledPrompt userPrompt style = drop (length full - 2048) full)
  ∧ (length full ≤ 2048 → trim userPrompt ≠ [] →
     buildStyledPrompt userPrompt style = full)
  ∧ (trim userPrompt = [] →
     buildStyledPrompt userPrompt style = drop 2 full).
Proof.
  intros full. split; [apply trimToMaxPrompt_length|].
  split; [|split].
  - intros HL. assert (trim userPrompt ≠ []) as Hu.
    { intros E. subst full. rewrite full_length, E in HL.
      pose proof (clauses_length style). cbn [length] in HL. lia. }
    unfold buildStyledPrompt, trimToMaxPrompt. cbv zeta.
    rewrite (trim_full _ _ Hu). fold full.
    destruct (Nat.leb_spec (length full) MAX_PROMPT_CHARS) as [Hle|_].
    + unfold MAX_PROMPT_CHARS in Hle. lia.
    + reflexivity.
  - intros HL Hu. unfold buildStyledPrompt, trimToMaxPrompt. cbv zeta.
    rewrite (trim_full _ _ Hu). fold full.
    destruct (Nat.leb_spec (length full) MAX_PROMPT_CHARS) as [_|Hgt]; [done|].
    unfold MAX_PROMPT_CHARS in Hgt. lia.
  - apply buildStyledPrompt_blank.
Qed.

(** For the empty user prompt the concatenation is short, and the composed
    prompt is not the concatenation: [trimToMaxPrompt] strips the two line
    breaks it starts with. *)
Lemma empty_prompt_is_stripped :
  length (buildStyledPrompt_full [] (JStr (lit "storybook"))) ≤ 2048
  ∧ buildStyledPrompt [] (JStr (lit "storybook"))
    ≠ buildStyledPrompt_full [] (JStr (lit "storybook")).
Proof. split; [vm_compute; lia|]. vm_compute. discriminate. Qed.

(** The clauses are short enough to survive the truncation whole. *)
Lemma clauses_kept u st :
  ∃ kept, buildStyledPrompt u st = kept ++ join LF (clauses st).
Proof.
  destruct (decide (trim u = [])) as [Hu|Hu].
  - exists []. rewrite (buildStyledPrompt_blank _ _ Hu), full_clauses, Hu. reflexivity.
  - pose proof (clauses_length st) as Hc. pose proof (full_length u st) as Hl.
    unfold buildStyledPrompt, trimToMaxPrompt, slice. cbv zeta. rewrite (trim_full _ _ Hu).
    destruct (Nat.leb_spec (length (buildStyledPrompt_full u st)) MAX_PROMPT_CHARS) as [_|Hgt].
    + eexists. apply full_clauses.
    + unfold MAX_PROMPT_CHARS in *.
      set (n := length (buildStyledPrompt_full u st) - 2048).
      rewrite full_clauses, drop_app_le.
      * eexists. reflexivity.
      * subst n. rewrite length_app. simpl (length (LF ++ LF)). lia.
Qed.

(** C9 (as amended).  The concatenation is the trimmed user prompt, a blank
    line, and the five clauses in the order crop-safe, style, anti-text,
    text-bearing objects, content safety, with one line break between
    adjacent clauses; the clauses end every composed prompt, whole and in
    that order. *)
Theorem buildStyledPrompt_order (userPrompt : jsstring) (style : json) :
  buildStyledPrompt_full userPrompt style
  = trim userPrompt ++ (LF ++ LF) ++ join LF (clauses style)
  ∧ ∃ kept, buildStyledPrompt userPrompt style = kept ++ join LF (clauses style).
Proof.
  split; [|apply clauses_kept].
  rewrite full_clauses. by rewrite <- app_assoc.
Qed.

(** Only the user prompt is followed by a blank line: the concatenation is
    not the six parts with a blank line between each adjacent pair. *)
Lemma clauses_not_blank_line_separated :
  buildStyledPrompt_full (lit "a fox in a forest") (JStr (lit "storybook"))
  ≠ join (LF ++ LF)
      (trim (lit "a fox in a forest") :: clauses (JStr (lit "storybook"))).
Proof. vm_compute. discriminate. Qed.


(** ** The clamps *)

Lemma clampNum_clamp n mn mx fb :
  clampNum n mn mx fb = clamp mn mx (finite_or false n fb).
Proof. reflexivity. Qed.

Lemma clampInt_clamp n mn mx fb :
  clampInt n mn mx fb = clamp mn mx (finite_or true n fb).
Proof. reflexivity. Qed.

Ltac q_cases :=
  repeat match goal with
  | |- context [Qle_bool ?a ?b] =>
      let E := fresh "E" in
      destruct (Qle_bool a b) eqn:E;
      [apply Qle_bool_iff in E
      |assert (¬ (a <= b)%Q) by (rewrite <- Qle_bool_iff; congruence); clear E]
  | H : context [Qle_bool ?a ?b] |- _ =>
      let E := fresh "E" in
      destruct (Qle_bool a b) eqn:E;
      [apply Qle_bool_iff in E
      |assert (¬ (a <= b)%Q) by (rewrite <- Qle_bool_iff; congruence); clear E]
  end.

Lemma same_number_refl a : same_number a a.
Proof. destruct a; simpl; [done|done|reflexivity]. Qed.

Lemma clamp_finite_idem a b x :
  ∃ y, clamp (Finite a) (Finite b) (Finite x) = Finite y
       ∧ same_number (clamp (Finite a) (Finite b) (Finite y)) (Finite y)
       ∧ ((y == a)%Q ∨ (y == b)%Q ∨ y = x).
Proof.
  unfold clamp, Math_min, Math_max, number_leb.
  q_cases; simpl; eexists; (split; [reflexivity|]); q_cases; simpl; split; try lra;
    auto using Qeq_refl.
Qed.

Lemma same_number_trans a b c : same_number a b → same_number b c → same_number a c.
Proof.
  destruct a, b, c; simpl; try done; try congruence. intros -> ->. reflexivity.
Qed.

Lemma clamp_NaN mn mx : clamp mn mx NaN = NaN.
Proof. unfold clamp, Math_min, Math_max. by destruct mn, mx. Qed.

Lemma clamp_Infinity_idem a b s :
  ∃ y, clamp (Finite a) (Finite b) (Infinity s) = Finite y
       ∧ same_number (clamp (Finite a) (Finite b) (Finite y)) (Finite y)
       ∧ ((y == a)%Q ∨ (y == b)%Q).
Proof.
  unfold clamp, Math_min, Math_max, number_leb.
  destruct s; q_cases; simpl; eexists; (split; [reflexivity|]); q_cases; simpl;
    split; try lra; auto using Qeq_refl.
Qed.

Lemma clamp_proper mn mx v v' :
  same_number v v' → same_number (clamp mn mx v) (clamp mn mx v').
Proof.
  unfold clamp, Math_min, Math_max, number_leb.
  destruct mn as [| [] |a], mx as [| [] |b], v as [| [] |x], v' as [| [] |x'];
    simpl; try done; intros Hx; q_cases; simpl; try done; lra.
Qed.

(** An integer-valued rational is fixed by rounding. *)
Lemma Qfloor_half z q : (q == inject_Z z)%Q → Qfloor (q + (1 # 2)) = z.
Proof.
  intros Hq. apply Z.le_antisymm.
  - apply Z.lt_succ_r. rewrite Zlt_Qlt.
    eapply Qle_lt_trans; [apply Qfloor_le|].
    rewrite Hq. unfold Z.succ. rewrite inject_Z_plus.
    change (inject_Z 1) with 1%Q. lra.
  - rewrite <- (Qfloor_Z z). apply Qfloor_resp_le. lra.
Qed.

Lemma is_integer_spec n :
  is_integer n = true → ∃ q z, n = Finite q ∧ (q == inject_Z z)%Q.
Proof.
  destruct n as [| |q]; simpl; [done|done|].
  intros H%Qeq_bool_iff. exists q, (Qfloor q). split; [done|]. by symmetry.
Qed.

Lemma round_integer q z :
  (q == inject_Z z)%Q → same_number (Math_round (Finite q)) (Finite q).
Proof.
  intros Hq. unfold Math_round, same_number.
  rewrite (Qfloor_half z q Hq). by symmetry.
Qed.

Lemma Math_round_is_integer x : is_integer (Math_round (Finite x)) = true.
Proof.
  unfold Math_round, is_integer. rewrite Qfloor_Z.
  apply Qeq_bool_iff. reflexivity.
Qed.

Lemma clampNum_within x mn mx fb :
  within (Finite x) mn mx →
  same_number (clampNum (Some (JNum (Finite x))) mn mx fb) (Finite x).
Proof.
  unfold within, clampNum, Math_min, Math_max, number_leb. simpl.
  destruct mn as [| [] |a], mx as [| [] |b]; intros [H1 H2]; try done;
    q_cases; simpl; try done; lra.
Qed.

Lemma clampNum_idem n a b fb :
  same_number (clampNum (Some (JNum (clampNum n (Finite a) (Finite b) fb))) (Finite a) (Finite b) fb)
              (clampNum n (Finite a) (Finite b) fb).
Proof.
  rewrite (clampNum_clamp n).
  assert (finite_or false n fb = fb ∨ ∃ x, finite_or false n fb = Finite x) as Hv.
  { destruct n as [[| |[| |x]| | |]|]; simpl; eauto. }
  destruct (finite_or false n fb) as [| s |x] eqn:Ev.
  - rewrite clamp_NaN. destruct Hv as [<-|[? [=]]].
    rewrite clampNum_clamp. cbn [finite_or Number_isFinite]. by rewrite clamp_NaN.
  - destruct (clamp_Infinity_idem a b s) as (y & -> & Hy & _). exact Hy.
  - destruct (clamp_finite_idem a b x) as (y & -> & Hy & _). exact Hy.
Qed.

Lemma clampInt_within x a b fb :
  is_integer (Finite a) = true → is_integer (Finite b) = true →
  within (Finite x) (Finite a) (Finite b) →
  same_number (clampInt (Some (JNum (Finite x))) (Finite a) (Finite b) fb) (Math_round (Finite x)).
Proof.
  intros (? & za & [= <-] & Ha)%is_integer_spec (? & zb & [= <-] & Hb)%is_integer_spec.
  unfold within, number_leb. intros [H1%Qle_bool_iff H2%Qle_bool_iff].
  assert (za ≤ Qfloor (x + (1 # 2)))%Z as L1.
  { rewrite <- (Qfloor_Z za). apply Qfloor_resp_le. lra. }
  assert (Qfloor (x + (1 # 2)) ≤ zb)%Z as L2.
  { apply Z.lt_succ_r. rewrite Zlt_Qlt. eapply Qle_lt_trans; [apply Qfloor_le|].
    unfold Z.succ. rewrite inject_Z_plus. change (inject_Z 1) with 1%Q. lra. }
  rewrite Zle_Qle in L1, L2.
  rewrite clampInt_clamp. cbn [finite_or Number_isFinite Math_round].
  set (r := inject_Z (Qfloor (x + (1 # 2)))) in *.
  unfold clamp, Math_min, Math_max, number_leb.
  q_cases; cbn [same_number]; lra.
Qed.

Lemma clampInt_idem n a b fb :
  is_integer (Finite a) = true → is_integer (Finite b) = true → is_integer fb = true →
  same_number (clampInt (Some (JNum (clampInt n (Finite a) (Finite b) fb))) (Finite a) (Finite b) fb)
              (clampInt n (Finite a) (Finite b) fb).
Proof.
  intros (? & za & [= <-] & Ha)%is_integer_spec (? & zb & [= <-] & Hb)%is_integer_spec Hfb.
  rewrite (clampInt_clamp n).
  assert (is_integer (finite_or true n fb) = true) as Hv.
  { destruct n as [[| |[| |x]| | |]|]; simpl; try done. apply (Math_round_is_integer x). }
  apply is_integer_spec in Hv as (w & zw & -> & Hw).
  destruct (clamp_finite_idem a b w) as (y & -> & Hy & Hc).
  assert (∃ zy, (y == inject_Z zy)%Q) as [zy Hzy].
  { destruct Hc as [H|[H|H]]; [exists za|exists zb|exists zw]; subst; lra. }
  rewrite clampInt_clamp. cbn [finite_or Number_isFinite].
  eapply same_number_trans; [|exact Hy].
  apply clamp_proper. by apply (round_integer y zy).
Qed.

(** C7 (as amended).  [clampNum] returns a finite [x] within the bounds
    unchanged, and is idempotent whenever the bounds are finite.  When the
    bounds are integers, [clampInt] returns [Math.round x] for a finite [x]
    within them, and is idempotent when the fallback is an integer too. *)
Theorem clamp_laws (n : value) (x : Q) (min max fallback : number) :
  (within (Finite x) min max →
   same_number (clampNum (Some (JNum (Finite x))) min max fallback) (Finite x))
  ∧ (Number_isFinite min = true → Number_isFinite max = true →
     same_number
       (clampNum (Some (JNum (clampNum n min max fallback))) min max fallback)
       (clampNum n min max fallback))
  ∧ (is_integer min = true → is_integer max = true →
     (within (Finite x) min max →
      same_number (clampInt (Some (JNum (Finite x))) min max fallback)
                  (Math_round (Finite x)))
     ∧ (is_integer fallback = true →
        same_number
          (clampInt (Some (JNum (clampInt n min max fallback))) min max fallback)
          (clampInt n min max fallback))).
Proof.
  split; [apply clampNum_within|]. split.
  - destruct min as [| |a], max as [| |b]; try done. intros _ _. apply clampNum_idem.
  - destruct min as [| |a], max as [| |b]; try done. intros Ha Hb. split.
    + by apply clampInt_within.
    + by apply clampInt_idem.
Qed.

(** Four clamps that are not as the claim has them: a bound that is not an
    integer (idempotence, then rounding within the bounds), a fallback that
    is not an integer, and an infinite bound with a NaN fallback. *)
Lemma clamp_not_idempotent :
  ¬ same_number
      (clampInt (Some (JNum (clampInt (Some (JNum (Finite 0)))
                               (Finite (1 # 2)) (Finite 10) (Finite 6))))
         (Finite (1 # 2)) (Finite 10) (Finite 6))
      (clampInt (Some (JNum (Finite 0))) (Finite (1 # 2)) (Finite 10) (Finite 6))
  ∧ (within (Finite (3 # 4)) (Finite (1 # 2)) (Finite (7 # 8))
     ∧ ¬ same_number
           (clampInt (Some (JNum (Finite (3 # 4)))) (Finite (1 # 2)) (Finite (7 # 8)) (Finite 6))
           (Math_round (Finite (3 # 4))))
  ∧ ¬ same_number
        (clampInt (Some (JNum (clampInt None (Finite 1) (Finite 20) (Finite (15 # 2)))))
           (Finite 1) (Finite 20) (Finite (15 # 2)))
        (clampInt None (Finite 1) (Finite 20) (Finite (15 # 2)))
  ∧ ¬ same_number
        (clampNum (Some (JNum (clampNum (Some (JNum (Finite 5)))
                                 (Infinity false) (Infinity false) NaN)))
           (Infinity false) (Infinity false) NaN)
        (clampNum (Some (JNum (Finite 5))) (Infinity false) (Infinity false) NaN).
Proof.
  repeat split; try (intros H; vm_compute in H; first [discriminate | contradiction]).
Qed.

Local Close Scope nat_scope.

(** ** Outcomes of composed handlers *)

Lemma returns_eq {A} (p : Prog A) a : p = Ret a → returns p a.
Proof. intros ->. constructor. Qed.

Lemma runs_ai_eq {A} (p : Prog A) model inputs k :
  p = AiRun model inputs k → runs_ai p model inputs.
Proof. intros ->. constructor. Qed.

Lemma returns_bind_inv {A B} (m : Prog A) (f : A → Prog B) b :
  returns (m ≫= f) b → ∃ a, returns m a ∧ returns (f a) b.
Proof.
  unfold mbind, Prog_bind.
  induction m as [a|e|model inputs k IH|data k IH|init k IH]; simpl; intros H.
  - exists a. split; [constructor|done].
  - inversion H.
  - inversion H; subst.
    match goal with Hk : returns (bind (k ?r) f) b |- _ =>
      destruct (IH r Hk) as (a & ? & ?) end.
    exists a. split; [econstructor|]; eauto.
  - inversion H; subst.
    match goal with Hk : returns (bind (k ?r) f) b |- _ =>
      destruct (IH r Hk) as (a & ? & ?) end.
    exists a. split; [econstructor|]; eauto.
  - inversion H; subst.
    match goal with Hk : returns (bind (k ?r) f) b |- _ =>
      destruct (IH r Hk) as (a & ? & ?) end.
    exists a. split; [econstructor|]; eauto.
Qed.

Lemma returns_try_catch_inv {A} (m : Prog A) h a :
  returns (try_catch m h) a → returns m a ∨ ∃ e, throws m e ∧ returns (h e) a.
Proof.
  induction m as [a'|e|model inputs k IH|data k IH|init k IH]; simpl; intros H.
  - by left.
  - right. exists e. split; [constructor|done].
  - inversion H; subst.
    match goal with Hk : returns (try_catch (k ?r) h) a |- _ =>
      destruct (IH r Hk) as [?|(e & ? & ?)] end;
      [left|right; exists e; split; [|done]]; econstructor; eauto.
  - inversion H; subst.
    match goal with Hk : returns (try_catch (k ?r) h) a |- _ =>
      destruct (IH r Hk) as [?|(e & ? & ?)] end;
      [left|right; exists e; split; [|done]]; econstructor; eauto.
  - inversion H; subst.
    match goal with Hk : returns (try_catch (k ?r) h) a |- _ =>
      destruct (IH r Hk) as [?|(e & ? & ?)] end;
      [left|right; exists e; split; [|done]]; econstructor; eauto.
Qed.

Lemma runs_ai_bind_inv {A B} (m : Prog A) (f : A → Prog B) model inputs :
  runs_ai (m ≫= f) model inputs →
  runs_ai m model inputs ∨ ∃ a, returns m a ∧ runs_ai (f a) model inputs.
Proof.
  unfold mbind, Prog_bind.
  induction m as [a|e|model' inputs' k IH|data k IH|init k IH]; simpl; intros H.
  - right. exists a. split; [constructor|done].
  - inversion H.
  - inversion H; subst; [left; constructor|].
    match goal with Hk : runs_ai (bind (k ?r) f) _ _ |- _ =>
      destruct (IH r Hk) as [?|(a & ? & ?)] end;
      [left|right; exists a; split; [|done]]; econstructor; eauto.
  - inversion H; subst.
    match goal with Hk : runs_ai (bind (k ?r) f) _ _ |- _ =>
      destruct (IH r Hk) as [?|(a & ? & ?)] end;
      [left|right; exists a; split; [|done]]; econstructor; eauto.
  - inversion H; subst.
    match goal with Hk : runs_ai (bind (k ?r) f) _ _ |- _ =>
      destruct (IH r Hk) as [?|(a & ? & ?)] end;
      [left|right; exists a; split; [|done]]; econstructor; eauto.
Qed.

Lemma runs_ai_try_catch_inv {A} (m : Prog A) h model inputs :
  runs_ai (try_catch m h) model inputs →
  runs_ai m model inputs ∨ ∃ e, throws m e ∧ runs_ai (h e) model inputs.
Proof.
  induction m as [a|e|model' inputs' k IH|data k IH|init k IH]; simpl; intros H.
  - inversion H.
  - right. exists e. split; [constructor|done].
  - inversion H; subst; [left; constructor|].
    match goal with Hk : runs_ai (try_catch (k ?r) h) _ _ |- _ =>
      destruct (IH r Hk) as [?|(e & ? & ?)] end;
      [left|right; exists e; split; [|done]]; econstructor; eauto.
  - inversion H; subst.
    match goal with Hk : runs_ai (try_catch (k ?r) h) _ _ |- _ =>
      destruct (IH r Hk) as [?|(e & ? & ?)] end;
      [left|right; exists e; split; [|done]]; econstructor; eauto.
  - inversion H; subst.
    match goal with Hk : runs_ai (try_catch (k ?r) h) _ _ |- _ =>
      destruct (IH r Hk) as [?|(e & ? & ?)] end;
      [left|right; exists e; split; [|done]]; econstructor; eauto.
Qed.

(** ** The allowlist *)

Lemma nonempty_true s : nonempty s = true ↔ s ≠ [].
Proof. unfold nonempty. rewrite negb_true_iff, bool_decide_eq_false. done. Qed.

Lemma nonempty_false s : nonempty s = false ↔ s = [].
Proof. unfold nonempty. rewrite negb_false_iff, bool_decide_eq_true. done. Qed.

Lemma elem_of_add_parts parts s o :
  o ∈ foldl add_part s parts ↔ o ∈ s ∨ (o ∈ trim <$> parts ∧ o ≠ []).
Proof.
  revert s. induction parts as [|p parts IH]; intros s; cbn [foldl].
  - rewrite fmap_nil, elem_of_nil. naive_solver.
  - rewrite IH, fmap_cons. unfold add_part.
    destruct (nonempty (trim p)) eqn:E.
    + apply nonempty_true in E. rewrite elem_of_union, elem_of_singleton, elem_of_cons.
      naive_solver.
    + apply nonempty_false in E. rewrite elem_of_cons. naive_solver.
Qed.

Lemma trimStart_nil s : trimStart s = [] ↔ forallb is_white_space s = true.
Proof.
  induction s as [|c s IH]; simpl; [done|].
  destruct (is_white_space c); simpl; [done|]. split; done.
Qed.

Lemma forallb_rev {A} (f : A → bool) l : forallb f (rev l) = forallb f l.
Proof.
  induction l as [|a l IH]; simpl; [done|].
  rewrite forallb_app, IH. simpl. rewrite andb_true_r. apply andb_comm.
Qed.

Lemma trimStart_white s : forallb is_white_space s = true → trimStart s = [].
Proof. apply trimStart_nil. Qed.

Lemma trimStart_suffix s : ∃ p, s = p ++ trimStart s ∧ forallb is_white_space p = true.
Proof.
  induction s as [|c s (p & Hp & Hw)]; simpl; [by exists []|].
  destruct (is_white_space c) eqn:E.
  - exists (c :: p). simpl. rewrite E, Hw. split; [by f_equal|done].
  - by exists [].
Qed.

Lemma trim_nil s : trim s = [] ↔ forallb is_white_space s = true.
Proof.
  unfold trim, trimEnd. split.
  - intros H. apply (f_equal (@rev _)) in H. rewrite rev_involutive in H. simpl in H.
    apply trimStart_nil in H. rewrite forallb_rev in H.
    destruct (trimStart_suffix s) as (p & Hs & Hp).
    rewrite Hs, forallb_app, Hp, H. done.
  - intros H. rewrite (trimStart_white s H). done.
Qed.

Lemma split_white s p :
  forallb is_white_space s = true → p ∈ split 44 s → forallb is_white_space p = true.
Proof.
  revert p. induction s as [|c s IH]; simpl; intros p Hs Hp.
  - apply list_elem_of_singleton in Hp as ->. done.
  - apply andb_true_iff in Hs as [Hc Hs].
    destruct (c =? 44) eqn:E.
    { apply N.eqb_eq in E. subst c. done. }
    destruct (split 44 s) as [|q qs] eqn:Eq.
    + apply list_elem_of_singleton in Hp as ->. simpl. by rewrite Hc.
    + apply elem_of_cons in Hp as [->|Hp].
      * simpl. rewrite Hc. apply IH; [done|]. left.
      * apply IH; [done|]. by right.
Qed.

Lemma default_origins_nonempty : [] ∉ default_origins.
Proof. unfold default_origins. rewrite !elem_of_cons, elem_of_nil. vm_compute. naive_solver. Qed.

Lemma parseAllowedOrigins_spec env o :
  o ∈ parseAllowedOrigins env ↔ allowlist_spec env o.
Proof.
  unfold parseAllowedOrigins, allowlist_spec.
  assert (∀ so : option jsstring, o ∈ (match so with
            | Some s => if nonempty (trim s) then {[trim s]} ∪ list_to_set default_origins else list_to_set default_origins
            | None => list_to_set default_origins end : gset jsstring)
          ↔ o ∈ default_origins ∨ ∃ s, so = Some s ∧ o = trim s ∧ o ≠ []) as H1.
  { intros [s|]; [|rewrite elem_of_list_to_set; naive_solver].
    destruct (nonempty (trim s)) eqn:E.
    - apply nonempty_true in E. rewrite elem_of_union, elem_of_singleton, elem_of_list_to_set.
      naive_solver.
    - apply nonempty_false in E. rewrite elem_of_list_to_set. naive_solver. }
  destruct (ALLOWED_ORIGINS env) as [l|].
  - destruct (nonempty (trim l)) eqn:E.
    + rewrite elem_of_add_parts, H1. naive_solver.
    + rewrite H1. apply nonempty_false, trim_nil in E. split; [naive_solver|].
      intros [?|[?|(s & [= <-] & Hin & Hne)]]; [naive_solver..|].
      apply list_elem_of_fmap in Hin as (p & -> & Hp).
      destruct Hne. apply trim_nil. by eapply split_white.
  - rewrite H1. naive_solver.
Qed.

Lemma parseAllowedOrigins_nonempty env : [] ∉ parseAllowedOrigins env.
Proof.
  rewrite parseAllowedOrigins_spec. unfold allowlist_spec.
  pose proof default_origins_nonempty. naive_solver.
Qed.

(** ** Responses *)

Lemma respond_inv request env body init r :
  returns (respond request env body init) r →
  r = {| response_status := init_status init;
         response_body := body;
         response_headers :=
           overlay (of_record (default [] (init_headers init))) (corsHeaders request env) |}.
Proof.
  unfold respond, new_Headers, mbind, Prog_bind.
  destruct (init_headers init) as [entries|]; simpl; intros H.
  - inversion H as [| | |? ? [e|] ? Hk]; subst; simpl in Hk; inversion Hk. done.
  - inversion H. done.
Qed.

Ltac lower_names :=
  repeat match goal with
  | |- context [lower ?s] =>
      let v := eval vm_compute in (lower s) in change (lower s) with v
  | H : context [lower ?s] |- _ =>
      let v := eval vm_compute in (lower s) in change (lower s) with v in H
  end.

Ltac lookup_inserts :=
  repeat first [rewrite lookup_insert_eq | rewrite lookup_insert_ne by done].

Lemma overlay_full_cors request env h0 :
  h0 !! "access-control-allow-origin"%string = None →
  full_cors request env (overlay h0 (corsHeaders request env)).
Proof.
  intros H0. unfold full_cors, corsHeaders, overlay, Headers_get, Headers_set.
  pose proof (parseAllowedOrigins_nonempty env) as Hne. lower_names.
  destruct (request_headers request !! "origin"%string) as [o|] eqn:Eo;
    cbn [or_empty default from_option id].
  - destruct (bool_decide (o ∈ parseAllowedOrigins env)) eqn:Ea.
    + assert (nonempty o = true) as ->.
      { apply nonempty_true. intros ->. by apply bool_decide_eq_true in Ea. }
      cbn. lower_names. repeat split; by lookup_inserts.
    + rewrite andb_false_r. cbn. lower_names. repeat split; by lookup_inserts.
  - cbn. lower_names. repeat split; by lookup_inserts.
Qed.

Lemma respond_ok request env body init r :
  of_record (default [] (init_headers init)) !! "access-control-allow-origin"%string = None →
  returns (respond request env body init) r →
  response_status r = init_status init
  ∧ response_body r = body
  ∧ full_cors request env (response_headers r).
Proof.
  intros H0 ->%respond_inv. cbn [response_status response_body response_headers].
  split; [done|]. split; [done|]. by apply overlay_full_cors.
Qed.

Ltac outcome :=
  repeat match goal with
  | H : returns (Raise _) _ |- _ => inversion H
  | H : returns (respond _ _ _ _) _ |- _ =>
      apply respond_ok in H as (? & ? & ?); [|reflexivity]
  | H : returns (upstream_error _ _ _) _ |- _ => unfold upstream_error in H
  | H : returns (try_catch _ _) _ |- _ =>
      apply returns_try_catch_inv in H as [H|(? & _ & H)]
  | H : returns (_ ≫= _) _ |- _ =>
      apply returns_bind_inv in H as (? & _ & H)
  | H : returns (match ?x with _ => _ end) _ |- _ => destruct x
  end.

Lemma fetch_flux_returns request env body style prompt r :
  returns (fetch_flux request env body style prompt) r →
  full_cors request env (response_headers r)
  ∧ (response_status r = 200 ∨ response_status r = 502).
Proof.
  unfold fetch_flux. intros H. outcome; cbn [init_status status_only] in *; eauto.
Qed.

(** The SDXL branch: the substitution throws, or the call is made inside
    the [try]. *)
Lemma fetch_sdxl_unfold request env body style prompt :
  fetch_sdxl request env body style prompt
  = if negative_prompt_throws body
    then Raise (TypeError "Cannot convert object to primitive value")
    else try_catch
           (imgBytes ← ai_run sdxl_model (sdxl_inputs body prompt);
            respond request env (BodyAi imgBytes)
              {| init_status := 200;
                 init_headers := Some (sdxl_headers body style prompt) |})
           (upstream_error request env).
Proof.
  unfold fetch_sdxl, negative_prompt_throws, sdxl_inputs, sdxl_negative_prompt,
    sdxl_headers, substitution.
  cbv zeta. destruct (prop body "negative_prompt") as [n|]; [|reflexivity].
  destruct (truthy (Some n)); [|reflexivity]. destruct (stringifies n); reflexivity.
Qed.

Lemma fetch_sdxl_returns request env body style prompt r :
  returns (fetch_sdxl request env body style prompt) r →
  full_cors request env (response_headers r)
  ∧ (response_status r = 200 ∨ response_status r = 502).
Proof.
  rewrite fetch_sdxl_unfold. intros H.
  destruct (negative_prompt_throws body); [inversion H|].
  outcome; cbn [init_status status_only] in *; eauto.
Qed.

Lemma fetch_generate_returns request env r :
  returns (fetch_generate request env) r →
  full_cors request env (response_headers r)
  ∧ (response_status r = 200 ∨ response_status r = 400 ∨ response_status r = 502).
Proof.
  unfold fetch_generate. intros H.
  repeat match goal with
  | H : returns (fetch_flux _ _ _ _ _) _ |- _ => apply fetch_flux_returns in H as (? & [?|?])
  | H : returns (fetch_sdxl _ _ _ _ _) _ |- _ => apply fetch_sdxl_returns in H as (? & [?|?])
  | _ => progress outcome
  end; cbn [init_status status_only] in *; eauto.
Qed.

Lemma fetch_returns request env r :
  returns (fetch request env) r →
  full_cors request env (response_headers r)
  ∧ (response_status r ∈ [200; 204; 400; 404; 405; 502]
     ∨ (response_status r = 401 ∧ nonempty (or_empty (API_KEY env)) = true)).
Proof.
  unfold fetch. intros H.
  destruct (nonempty (or_empty (API_KEY env))) eqn:Ek.
  all: repeat match goal with
  | H : returns (fetch_generate _ _) _ |- _ =>
      apply fetch_generate_returns in H as (? & [?|[?|?]])
  | _ => progress outcome
  end; cbn [init_status status_only] in *; (split; [done|]).
  all: try (right; done); left; match goal with H : response_status _ = _ |- _ => rewrite H end;
    rewrite !elem_of_cons; auto 10.
Qed.

(** ** Routing and authentication *)

Lemma startsWith_app s p : startsWith s p = true ↔ ∃ r, s = p ++ r.
Proof.
  revert s. induction p as [|a p IH]; intros [|b s]; simpl.
  - split; [by exists []|done].
  - split; [by exists (b :: s)|done].
  - split; [done|]. by intros [r [=]].
  - rewrite andb_true_iff, N.eqb_eq, IH. split.
    + intros [-> [r ->]]. by exists r.
    + intros [r [= -> ->]]. eauto.
Qed.

(** The token read from the header is the key exactly when the header is
    the key behind the scheme. *)
Lemma bearer_token auth key :
  key ≠ [] →
  (if startsWith auth (lit "Bearer ") then slice auth 7 else []) = key
  ↔ auth = lit "Bearer " ++ key.
Proof.
  intros Hkey. destruct (startsWith auth (lit "Bearer ")) eqn:E.
  - apply startsWith_app in E as [r ->]. unfold slice.
    change (drop 7 (lit "Bearer " ++ r)) with r. split; [by intros ->|].
    by intros ?%(inj (app _)).
  - split; [by intros <-|]. intros ->.
    assert (startsWith (lit "Bearer " ++ key) (lit "Bearer ") = true) as E'
      by (apply startsWith_app; eauto).
    congruence.
Qed.

Lemma fetch_post_generate request env :
  request_pathname request = lit "/api/generate" →
  request_method request = lit "POST" →
  fetch request env =
    if nonempty (or_empty (API_KEY env)) then
      let auth := or_empty (Headers_get (request_headers request) "Authorization") in
      let token := if startsWith auth (lit "Bearer ") then slice auth 7 else [] in
      if negb (bool_decide (Some token = API_KEY env))
      then respond request env (BodyText (text "Unauthorized")) (status_only 401)
      else fetch_generate request env
    else fetch_generate request env.
Proof. intros Hp Hm. unfold fetch. rewrite Hp, Hm. reflexivity. Qed.

Lemma fetch_generate_not_401 request env r :
  fetch_generate request env = Ret r → response_status r ≠ 401.
Proof.
  intros H%returns_eq%fetch_generate_returns. destruct H as (_ & [E | [E | E]]); rewrite E; done.
Qed.

Lemma token_matches (auth : option jsstring) key :
  key ≠ [] →
  bool_decide (Some (if startsWith (or_empty auth) (lit "Bearer ")
                     then slice (or_empty auth) 7 else []) = Some key)
  = bool_decide (auth = Some (lit "Bearer " ++ key)).
Proof.
  intros Hkey. apply bool_decide_ext. split.
  - intros [= H]. apply (bearer_token _ _ Hkey) in H.
    destruct auth as [a|]; simpl in H; [by subst|]. by destruct key.
  - intros ->. f_equal. by apply bearer_token.
Qed.

Lemma respond_status_only request env body status :
  respond request env body (status_only status)
  = Ret {| response_status := status;
           response_body := body;
           response_headers := overlay ∅ (corsHeaders request env) |}.
Proof. reflexivity. Qed.

(** C3 (as amended).  On [POST /api/generate]: without a configured secret
    every request proceeds past authentication; with a secret [key] that is
    not the empty string, a request proceeds exactly when its
    [Authorization] header is [Bearer key], and any other request is
    answered 401 with the body [Unauthorized]. *)
Theorem auth_gating (request : Request) (env : Env) :
  request_pathname request = lit "/api/generate" →
  request_method request = lit "POST" →
  (API_KEY env = None → fetch request env = fetch_generate request env)
  ∧ (∀ key, API_KEY env = Some key → key ≠ [] →
       (fetch request env = fetch_generate request env
        ↔ Headers_get (request_headers request) "Authorization" = Some (lit "Bearer " ++ key))
       ∧ (Headers_get (request_headers request) "Authorization" ≠ Some (lit "Bearer " ++ key) →
          ∃ r, fetch request env = Ret r
               ∧ response_status r = 401
               ∧ response_body r = BodyText (text "Unauthorized"))).
Proof.
  intros Hp Hm. rewrite (fetch_post_generate _ _ Hp Hm). split.
  { intros ->. reflexivity. }
  intros key Hk Hkey. rewrite Hk. cbn [or_empty default from_option id].
  apply nonempty_true in Hkey as Hne. rewrite Hne. cbv zeta.
  fold (or_empty (Headers_get (request_headers request) "Authorization")).
  rewrite (token_matches _ _ Hkey), respond_status_only.
  destruct (decide (Headers_get (request_headers request) "Authorization"
                    = Some (lit "Bearer " ++ key))) as [Ha|Ha].
  - rewrite bool_decide_eq_true_2 by done. cbn [negb]. split; [done|]. by intros [].
  - rewrite bool_decide_eq_false_2 by done. cbn [negb]. split.
    + split; [|done]. intros Heq. symmetry in Heq.
      by apply fetch_generate_not_401 in Heq.
    + intros _. eexists. split; [reflexivity|]. split; reflexivity.
Qed.

Lemma auth_gating_witness :
  fetch (post_generate bearer_s3cret fox_body) secret_config
  = fetch_generate (post_generate bearer_s3cret fox_body) secret_config.
Proof.
  apply (proj2 (auth_gating (post_generate bearer_s3cret fox_body) secret_config
                  eq_refl eq_refl) (lit "s3cret") eq_refl).
  - vm_compute. discriminate.
  - reflexivity.
Defined.

(** With the empty string as the secret, a request that carries no
    [Authorization] header proceeds. *)
Lemma auth_gating_empty_secret :
  API_KEY empty_secret = Some []
  ∧ ¬ (fetch (post_generate ∅ fox_body) empty_secret
       = fetch_generate (post_generate ∅ fox_body) empty_secret
       ↔ Headers_get (request_headers (post_generate ∅ fox_body)) "Authorization"
         = Some (lit "Bearer " ++ [])).
Proof.
  split; [reflexivity|]. intros [H _].
  assert (Headers_get (request_headers (post_generate ∅ fox_body)) "Authorization"
          = Some (lit "Bearer " ++ [])) as E by (apply H; reflexivity).
  vm_compute in E. discriminate.
Qed.

(** C10.  With the empty string as the secret the handler does what it does
    without a secret: a [POST /api/generate] proceeds past authentication
    whatever its headers, and no response has status 401. *)
Theorem empty_secret_skips_auth (request : Request) (env : Env) :
  API_KEY env = Some [] →
  fetch request env
  = fetch request {| API_KEY := None;
                     ALLOWED_ORIGIN := ALLOWED_ORIGIN env;
                     ALLOWED_ORIGINS := ALLOWED_ORIGINS env |}
  ∧ (request_pathname request = lit "/api/generate" →
     request_method request = lit "POST" →
     fetch request env = fetch_generate request env)
  ∧ (∀ r, returns (fetch request env) r → response_status r ≠ 401).
Proof.
  intros Hkey. split; [|split].
  - destruct env as [k o os]. simpl in Hkey. subst k. reflexivity.
  - intros Hp Hm. rewrite (fetch_post_generate _ _ Hp Hm), Hkey. reflexivity.
  - intros r (_ & [Hs|[_ Hne]])%fetch_returns.
    + intros E. rewrite E in Hs. rewrite !elem_of_cons, elem_of_nil in Hs.
      destruct Hs as [?|[?|[?|[?|[?|[?|[]]]]]]]; discriminate.
    + rewrite Hkey in Hne. discriminate.
Qed.

Lemma empty_secret_skips_auth_witness :
  fetch (post_generate ∅ fox_body) empty_secret
  = fetch_generate (post_generate ∅ fox_body) empty_secret.
Proof.
  apply (empty_secret_skips_auth (post_generate ∅ fox_body) empty_secret eq_refl);
    reflexivity.
Defined.

(** ** The CORS headers of every response *)

(** C2.  On every response, [Access-Control-Allow-Origin] is the request's
    origin exactly when the allowlist has that origin, and is absent
    otherwise (so it is never the empty string, which the allowlist never
    has); the allowlist is the defaults with the trimmed single origin and
    the trimmed, non-empty entries of the comma-separated list. *)
Theorem cors_origin_echo (request : Request) (env : Env) (r : Response) :
  returns (fetch request env) r →
  (∀ origin, Headers_get (request_headers request) "Origin" = Some origin →
     (Headers_get (response_headers r) "Access-Control-Allow-Origin" = Some [Chars origin]
      ↔ origin ∈ parseAllowedOrigins env)
     ∧ (origin ∉ parseAllowedOrigins env →
        Headers_get (response_headers r) "Access-Control-Allow-Origin" = None))
  ∧ (Headers_get (request_headers request) "Origin" = None →
     Headers_get (response_headers r) "Access-Control-Allow-Origin" = None)
  ∧ Headers_get (response_headers r) "Access-Control-Allow-Origin" ≠ Some [Chars []]
  ∧ (∀ origin, origin ∈ parseAllowedOrigins env ↔ allowlist_spec env origin).
Proof.
  intros ((_ & _ & _ & _ & _ & Hacao) & _)%fetch_returns.
  pose proof (parseAllowedOrigins_nonempty env) as Hne.
  split; [|split; [|split]].
  - intros origin Ho. rewrite Ho in Hacao. rewrite Hacao.
    case_bool_decide; naive_solver.
  - intros Ho. by rewrite Ho in Hacao.
  - rewrite Hacao. destruct (Headers_get (request_headers request) "Origin"); [|done].
    case_bool_decide; [|done]. intros [= ->]. done.
  - apply parseAllowedOrigins_spec.
Qed.

Lemma cors_origin_echo_witness :
  Headers_get (response_headers (not_found get_missing origins_config))
    "Access-Control-Allow-Origin"
  = Some [Chars (lit "https://b.example")].
Proof.
  apply (proj1 (cors_origin_echo get_missing origins_config
                  (not_found get_missing origins_config)
                  (returns_eq _ _ eq_refl)) (lit "https://b.example") eq_refl).
  vm_compute. reflexivity.
Defined.

(** C5.  Every response with status 400, 401, 404, 405 or 502 has
    [Vary: Origin], and [Access-Control-Allow-Origin] when the request's
    origin is in the allowlist. *)
Theorem errors_carry_cors (request : Request) (env : Env) (r : Response) :
  returns (fetch request env) r →
  response_status r ∈ [400; 401; 404; 405; 502] →
  Headers_get (response_headers r) "Vary" = Some (text "Origin")
  ∧ (∀ origin, Headers_get (request_headers request) "Origin" = Some origin →
       origin ∈ parseAllowedOrigins env →
       Headers_get (response_headers r) "Access-Control-Allow-Origin" = Some [Chars origin]).
Proof.
  intros ((Hvary & _ & _ & _ & _ & Hacao) & _)%fetch_returns _. split; [done|].
  intros origin Ho Hin. rewrite Hacao, Ho. by rewrite bool_decide_eq_true_2.
Qed.

Lemma errors_carry_cors_witness :
  Headers_get (response_headers (not_found get_missing origins_config)) "Vary"
  = Some (text "Origin")
  ∧ Headers_get (response_headers (not_found get_missing origins_config))
      "Access-Control-Allow-Origin"
    = Some [Chars (lit "https://b.example")].
Proof.
  destruct (errors_carry_cors get_missing origins_config
              (not_found get_missing origins_config)
              (returns_eq _ _ eq_refl)) as [Hv Ho].
  - cbn [not_found response_status]. rewrite !elem_of_cons. auto.
  - split; [exact Hv|]. apply Ho; [reflexivity|]. vm_compute. reflexivity.
Defined.

(** ** Preflight *)

(** C4 (as amended).  An [OPTIONS] request on any path other than
    [/__version] is answered 204 with no body and the full CORS headers;
    on [/__version] it is answered like every other method there, 200 with
    the version text, also with the full CORS headers. *)
Theorem options_preflight (request : Request) (env : Env) :
  request_method request = lit "OPTIONS" →
  (request_pathname request ≠ lit "/__version" →
   ∃ r, fetch request env = Ret r
        ∧ response_status r = 204
        ∧ response_body r = BodyNull
        ∧ full_cors request env (response_headers r))
  ∧ (request_pathname request = lit "/__version" →
     ∃ r, fetch request env = Ret r
          ∧ response_status r = 200
          ∧ response_body r
            = BodyText
                (text "ebook-image-forge v5 (prompt<=2048 + resilient CORS + stronger no-text)")
          ∧ full_cors request env (response_headers r)).
Proof.
  intros Hm. split; intros Hp; unfold fetch.
  - rewrite bool_decide_eq_false_2 by done. rewrite Hm.
    rewrite bool_decide_eq_true_2 by done. rewrite respond_status_only.
    eexists. split; [reflexivity|]. cbn [response_status response_body response_headers].
    split; [done|]. split; [done|]. by apply overlay_full_cors.
  - rewrite bool_decide_eq_true_2 by done. rewrite respond_status_only.
    eexists. split; [reflexivity|]. cbn [response_status response_body response_headers].
    split; [done|]. split; [done|]. by apply overlay_full_cors.
Qed.

Lemma options_preflight_witness :
  ∃ r, fetch options_generate no_config = Ret r
       ∧ response_status r = 204
       ∧ response_body r = BodyNull
       ∧ full_cors options_generate no_config (response_headers r).
Proof.
  apply (proj1 (options_preflight options_generate no_config eq_refl)).
  vm_compute. discriminate.
Defined.

(** [OPTIONS /__version] is answered 200 with a body: the version check
    comes before the preflight answer. *)
Lemma options_version_is_200 :
  request_method options_version = lit "OPTIONS"
  ∧ ∃ r, fetch options_version no_config = Ret r
         ∧ response_status r = 200
         ∧ response_body r
           = BodyText (text "ebook-image-forge v5 (prompt<=2048 + resilient CORS + stronger no-text)").
Proof. split; [reflexivity|]. eexists. split; [reflexivity|]. split; reflexivity. Qed.

(** ** Exceptions *)

Lemma throws_bind_inv {A B} (m : Prog A) (f : A → Prog B) e :
  throws (m ≫= f) e → throws m e ∨ ∃ a, returns m a ∧ throws (f a) e.
Proof.
  unfold mbind, Prog_bind.
  induction m as [a|e'|model inputs k IH|data k IH|init k IH]; simpl; intros H.
  - right. exists a. split; [constructor|done].
  - inversion H; subst. left. constructor.
  - inversion H; subst.
    match goal with Hk : throws (bind (k ?r) f) e |- _ =>
      destruct (IH r Hk) as [?|(a & ? & ?)] end;
      [left|right; exists a; split; [|done]]; econstructor; eauto.
  - inversion H; subst.
    match goal with Hk : throws (bind (k ?r) f) e |- _ =>
      destruct (IH r Hk) as [?|(a & ? & ?)] end;
      [left|right; exists a; split; [|done]]; econstructor; eauto.
  - inversion H; subst.
    match goal with Hk : throws (bind (k ?r) f) e |- _ =>
      destruct (IH r Hk) as [?|(a & ? & ?)] end;
      [left|right; exists a; split; [|done]]; econstructor; eauto.
Qed.

(** What leaves a [try] has been thrown by its [catch]. *)
Lemma throws_try_catch_inv {A} (m : Prog A) h e :
  throws (try_catch m h) e → ∃ e', throws m e' ∧ throws (h e') e.
Proof.
  induction m as [a|e'|model inputs k IH|data k IH|init k IH]; simpl; intros H.
  - inversion H.
  - exists e'. split; [constructor|done].
  - inversion H; subst.
    match goal with Hk : throws (try_catch (k ?r) h) e |- _ =>
      destruct (IH r Hk) as (e' & ? & ?) end.
    exists e'. split; [econstructor|]; eauto.
  - inversion H; subst.
    match goal with Hk : throws (try_catch (k ?r) h) e |- _ =>
      destruct (IH r Hk) as (e' & ? & ?) end.
    exists e'. split; [econstructor|]; eauto.
  - inversion H; subst.
    match goal with Hk : throws (try_catch (k ?r) h) e |- _ =>
      destruct (IH r Hk) as (e' & ? & ?) end.
    exists e'. split; [econstructor|]; eauto.
Qed.

Lemma upstream_error_returns request env e e' :
  ¬ throws (upstream_error request env e) e'.
Proof. unfold upstream_error. rewrite respond_status_only. intros H. inversion H. Qed.

(** The two backend branches catch whatever the platform throws. *)
Lemma fetch_flux_catches request env body style prompt e :
  ¬ throws (fetch_flux request env body style prompt) e.
Proof.
  unfold fetch_flux. intros (e' & _ & H)%throws_try_catch_inv.
  by apply upstream_error_returns in H.
Qed.

(** The SDXL branch catches whatever the platform throws, not what the
    substitution of its negative prompt throws. *)
Lemma fetch_sdxl_catches request env body style prompt e :
  throws (fetch_sdxl request env body style prompt) e →
  negative_prompt_throws body = true.
Proof.
  rewrite fetch_sdxl_unfold. destruct (negative_prompt_throws body); [done|].
  intros (e' & _ & H)%throws_try_catch_inv. by apply upstream_error_returns in H.
Qed.

(** An exception leaves [fetch] only for the body [null], for a body whose
    [prompt] is truthy and not a string, and for a negative prompt whose
    substitution throws. *)
Lemma fetch_throws_inv request env e :
  throws (fetch request env) e →
  ∃ body, request_json request = Some body
    ∧ (body = JNull
       ∨ (truthy (prop body "prompt") = true ∧ ∀ s, prop body "prompt" ≠ Some (JStr s))
       ∨ negative_prompt_throws body = true).
Proof.
  unfold fetch. rewrite !respond_status_only. intros H.
  assert (throws (fetch_generate request env) e) as Hg.
  { repeat match goal with
    | H : throws (Ret _) _ |- _ => inversion H
    | H : throws (if ?c then _ else _) _ |- _ => destruct c
    | H : throws (let _ := _ in _) _ |- _ => cbv zeta in H
    end; done. }
  clear H. unfold fetch_generate in Hg. rewrite !respond_status_only in Hg.
  destruct (request_json request) as [body|]; [|inversion Hg].
  exists body. split; [done|].
  destruct body as [|b|n|s0|l|o]; try (by left); right.
  all: destruct (truthy (prop _ "prompt")) eqn:Et; cbn [negb] in Hg; [|inversion Hg].
  all: destruct (prop _ "prompt") as [[| | |s'| |]|] eqn:Ep;
    try (left; split; [done|]; intros s'' Hs; discriminate).
  all: right.
  all: repeat match goal with
    | H : throws (Ret _) _ |- _ => inversion H
    | H : throws (fetch_flux _ _ _ _ _) _ |- _ => by apply fetch_flux_catches in H
    | H : throws (fetch_sdxl _ _ _ _ _) _ |- _ => by apply fetch_sdxl_catches in H
    | H : throws (if ?c then _ else _) _ |- _ => destruct c
    | H : throws (let _ := _ in _) _ |- _ => cbv zeta in H
    end.
Qed.

(** C6 (the code fails it).  For the body [{"prompt": 123}] the handler
    returns no response: the [TypeError] of [body.prompt.trim()] is raised
    outside every [try]. *)
Theorem non_string_prompt_throws :
  fetch (post_generate ∅ numeric_prompt_body) no_config
  = Raise (TypeError "body.prompt.trim is not a function")
  ∧ ¬ ∃ r, returns (fetch (post_generate ∅ numeric_prompt_body) no_config) r.
Proof.
  assert (fetch (post_generate ∅ numeric_prompt_body) no_config
          = Raise (TypeError "body.prompt.trim is not a function")) as E by reflexivity.
  split; [exact E|]. rewrite E. intros [r H]. inversion H.
Qed.

(** ** The seed *)

Lemma runs_ai_respond request env body init model inputs :
  ¬ runs_ai (respond request env body init) model inputs.
Proof.
  unfold respond, new_Headers, mbind, Prog_bind.
  destruct (init_headers init) as [entries|]; simpl; intros H.
  - inversion H as [| | |? ? [e|] ? ? Hk]; subst; simpl in Hk; inversion Hk.
  - inversion H.
Qed.

Lemma runs_ai_ai_run model inputs model' inputs' :
  runs_ai (ai_run model inputs) model' inputs' → model' = model ∧ inputs' = inputs.
Proof.
  unfold ai_run. intros H.
  inversion H as [|? ? ? [e|a] ? ? Hk| |]; subst; [done|simpl in Hk; inversion Hk..].
Qed.

Lemma runs_ai_atob data model inputs : ¬ runs_ai (atob data) model inputs.
Proof.
  unfold atob. intros H.
  inversion H as [| |? ? [e|a] ? ? Hk|]; subst; simpl in Hk; inversion Hk.
Qed.

Ltac ai_calls :=
  repeat match goal with
  | H : runs_ai (Raise _) _ _ |- _ => inversion H
  | H : runs_ai (respond _ _ _ _) _ _ |- _ => by apply runs_ai_respond in H
  | H : runs_ai (atob _) _ _ |- _ => by apply runs_ai_atob in H
  | H : runs_ai (upstream_error _ _ _) _ _ |- _ => unfold upstream_error in H
  | H : runs_ai (ai_run _ _) _ _ |- _ => apply runs_ai_ai_run in H as [-> ->]
  | H : runs_ai (fetch_sdxl _ _ _ _ _) _ _ |- _ =>
      rewrite fetch_sdxl_unfold in H; unfold sdxl_inputs in H
  | H : runs_ai (try_catch _ _) _ _ |- _ =>
      apply runs_ai_try_catch_inv in H as [H|(? & _ & H)]
  | H : runs_ai (_ ≫= _) _ _ |- _ =>
      apply runs_ai_bind_inv in H as [H|(? & _ & H)]
  | H : runs_ai (match ?x with _ => _ end) _ _ |- _ => destruct x
  end.

Lemma seed_spread_lookup body (m : gmap string arg) :
  m !! "seed"%string = None →
  (seed_spread body ∪ m) !! "seed"%string
  = match prop body "seed" with
    | Some (JNum seed) => Some (ArgNumber (Math_floor seed))
    | _ => None
    end.
Proof.
  intros Hm. unfold seed_spread.
  destruct (prop body "seed") as [[]|];
    rewrite ?(left_id ∅ _); try done.
  apply lookup_union_Some_l. apply lookup_singleton_eq.
Qed.

(** C8 (as amended).  Whatever the handler passes to the generation
    capability, on the FLUX or the SDXL path, has a [seed] field exactly
    when the body's [seed] is a number, integer or not, and the field is
    the floor of that number. *)
Theorem seed_passed_when_number (request : Request) (env : Env)
    (model : jsstring) (inputs : gmap string arg) :
  runs_ai (fetch request env) model inputs →
  ∃ body, request_json request = Some body
    ∧ (model = flux_model ∨ model = sdxl_model)
    ∧ inputs !! "seed"%string
      = match prop body "seed" with
        | Some (JNum seed) => Some (ArgNumber (Math_floor seed))
        | _ => None
        end.
Proof.
  unfold fetch. intros H.
  assert (runs_ai (fetch_generate request env) model inputs) as Hg.
  { destruct (nonempty (or_empty (API_KEY env))); cbv zeta in H; ai_calls; done. }
  clear H. unfold fetch_generate in Hg.
  destruct (request_json request) as [body|]; [|ai_calls].
  exists body. split; [done|].
  unfold fetch_flux in Hg. ai_calls.
  all: (split; [auto|]); by apply seed_spread_lookup.
Qed.

Lemma seed_passed_when_number_witness :
  seeded_inputs !! "seed"%string = Some (ArgNumber (Math_floor (Finite (7 # 2)))).
Proof.
  destruct (seed_passed_when_number (post_generate ∅ seeded_body) no_config
              flux_model seeded_inputs) as (body & [= <-] & _ & Hseed).
  - eapply runs_ai_eq. reflexivity.
  - exact Hseed.
Defined.

(** A seed of 3.5 is not an integer, and the FLUX call gets [seed: 3]. *)
Lemma fractional_seed_is_passed :
  prop seeded_body "seed" = Some (JNum (Finite (7 # 2)))
  ∧ is_integer (Finite (7 # 2)) = false
  ∧ runs_ai (fetch (post_generate ∅ seeded_body) no_config) flux_model seeded_inputs
  ∧ seeded_inputs !! "seed"%string = Some (ArgNumber (Finite 3)).
Proof.
  split; [reflexivity|]. split; [reflexivity|]. split.
  - eapply runs_ai_eq. reflexivity.
  - vm_compute. reflexivity.
Qed.

(** * Further properties of the code *)

(** ** The prompt limit and the composer *)

Local Open Scope nat_scope.

Lemma trimStart_fixed t :
  (∀ c r, t = c :: r → is_white_space c = false) → trimStart t = t.
Proof.
  destruct t as [|c r]; [done|]. intros H. simpl. by rewrite (H c r eq_refl).
Qed.

Lemma trim_last s c r : rev (trim s) = c :: r → is_white_space c = false.
Proof.
  unfold trim, trimEnd. rewrite rev_involutive. apply trimStart_head.
Qed.

(** [trim] changes nothing the second time. *)
Lemma trim_trim s : trim (trim s) = trim s.
Proof.
  unfold trim at 1. unfold trimEnd.
  rewrite (trimStart_fixed (trim s)) by (intros c r; apply trim_head).
  rewrite (trimStart_fixed (rev (trim s))) by (intros c r; apply trim_last).
  apply rev_involutive.
Qed.

Lemma trim_last_char s c : last (trim s) = Some c → is_white_space c = false.
Proof.
  intros [l' Hl]%last_Some. apply (trim_last s c (rev l')).
  rewrite Hl, rev_app_distr. reflexivity.
Qed.

Lemma trimToMaxPrompt_suffix s maxChars :
  trimToMaxPrompt s maxChars `suffix_of` trim s.
Proof.
  unfold trimToMaxPrompt, slice. cbv zeta.
  destruct (length (trim s) <=? maxChars); [done|apply suffix_drop].
Qed.

Lemma slice_number_suffix s start : slice_number s start `suffix_of` s.
Proof.
  destruct start as [|[]|q]; simpl; try done.
  - apply suffix_nil.
  - destruct (_ <? _)%Z; apply suffix_drop.
Qed.

Lemma is_integer_floor q : is_integer (Finite q) = true → (q == inject_Z (Qfloor q))%Q.
Proof. unfold is_integer. intros H%Qeq_bool_iff. by symmetry. Qed.

Lemma truncate_Z z : truncate (inject_Z z) = z.
Proof. unfold truncate. destruct (Qle_bool 0 _); [apply Qfloor_Z|apply Qceiling_Z]. Qed.

Lemma truncate_comp p q : (p == q)%Q → truncate p = truncate q.
Proof.
  intros H. unfold truncate.
  assert (Qle_bool 0 p = Qle_bool 0 q) as ->.
  { apply eq_true_iff_eq. rewrite !Qle_bool_iff. by rewrite H. }
  destruct (Qle_bool 0 q); [by apply Qfloor_comp|by apply Qceiling_comp].
Qed.

Lemma trimToMaxPrompt_number_integer s q :
  is_integer (Finite q) = true →
  trimToMaxPrompt_number s (Finite q)
  = drop (length (trim s) - Z.to_nat (Qfloor q)) (trim s).
Proof.
  intros Hq%is_integer_floor. unfold trimToMaxPrompt_number. cbv zeta.
  set (t := trim s). set (z := Qfloor q) in *.
  unfold number_leb, number_of_nat.
  destruct (Qle_bool (inject_Z (Z.of_nat (length t))) q) eqn:E.
  - apply Qle_bool_iff in E. rewrite Hq, <- Zle_Qle in E.
    replace (length t - Z.to_nat z) with 0 by lia. done.
  - assert (z < Z.of_nat (length t))%Z as Hlt.
    { apply Z.nle_gt. intros Hle. apply not_true_iff_false in E. apply E.
      apply Qle_bool_iff. rewrite Hq, <- Zle_Qle. done. }
    unfold length_minus, slice_number. cbv zeta.
    assert (truncate (inject_Z (Z.of_nat (length t)) - q) = (Z.of_nat (length t) - z)%Z) as ->.
    { rewrite <- (truncate_Z (Z.of_nat (length t) - z)). apply truncate_comp.
      rewrite Hq. unfold Z.sub. rewrite inject_Z_plus, inject_Z_opp. reflexivity. }
    destruct (Z.ltb_spec (Z.of_nat (length t) - z) 0); [lia|].
    destruct (Z.le_gt_cases 0 z).
    + f_equal. lia.
    + rewrite !drop_ge; [done|lia..].
Qed.

(** X1.  [trimToMaxPrompt] keeps the end of the trimmed string, whatever
    number the limit is: its result is a suffix of [s.trim()].  For a limit
    that is an integer the result is as long as that string or the limit,
    whichever is shorter, and empty for a limit below zero; NaN and
    [Infinity] do not limit, [-Infinity] leaves nothing; at a length [n] it
    is the function as the composer calls it. *)
Theorem trimToMaxPrompt_keeps_end (s : jsstring) :
  (∀ maxChars, trimToMaxPrompt_number s maxChars `suffix_of` trim s)
  ∧ (∀ q, is_integer (Finite q) = true →
       length (trimToMaxPrompt_number s (Finite q))
       = length (trim s) `min` Z.to_nat (Qfloor q))
  ∧ trimToMaxPrompt_number s NaN = trim s
  ∧ trimToMaxPrompt_number s (Infinity false) = trim s
  ∧ trimToMaxPrompt_number s (Infinity true) = []
  ∧ (∀ n : nat, trimToMaxPrompt_number s (number_of_nat n) = trimToMaxPrompt s n).
Proof.
  split; [|split; [|split; [|split; [|split]]]].
  - intros maxChars. unfold trimToMaxPrompt_number. cbv zeta.
    destruct (number_leb _ _); [done|apply slice_number_suffix].
  - intros q Hq. rewrite trimToMaxPrompt_number_integer by done.
    rewrite length_drop. lia.
  - reflexivity.
  - reflexivity.
  - reflexivity.
  - intros n. unfold number_of_nat. rewrite trimToMaxPrompt_number_integer.
    + rewrite Qfloor_Z, Nat2Z.id. unfold trimToMaxPrompt, slice. cbv zeta.
      destruct (Nat.leb_spec (length (trim s)) n); [|done].
      replace (length (trim s) - n) with 0 by lia. done.
    + unfold is_integer. rewrite Qfloor_Z. apply Qeq_bool_iff. reflexivity.
Qed.

(** X2.  What [trimToMaxPrompt] returns never ends in white space, whatever the
    limit: the cut is made at the front of the trimmed string. *)
Theorem trimToMaxPrompt_no_trailing_space (s : jsstring) (maxChars : nat) (c : code_unit) :
  last (trimToMaxPrompt s maxChars) = Some c → is_white_space c = false.
Proof.
  intros Hlast. apply (trim_last_char s).
  destruct (trimToMaxPrompt_suffix s maxChars) as [pre Hpre].
  rewrite Hpre, last_app, Hlast. done.
Qed.

Lemma trimToMaxPrompt_no_trailing_space_witness :
  is_white_space 99%N = false.
Proof.
  apply (trimToMaxPrompt_no_trailing_space (lit "  abc  ") 2 99%N). reflexivity.
Defined.

(** X3.  A string of white space only is cut down to the empty string. *)
Theorem trimToMaxPrompt_blank (s : jsstring) (maxChars : nat) :
  forallb is_white_space s = true → trimToMaxPrompt s maxChars = [].
Proof.
  intros Hs%trim_nil. unfold trimToMaxPrompt. rewrite Hs. cbv zeta.
  by destruct (length [] <=? maxChars).
Qed.

Lemma trimToMaxPrompt_blank_witness :
  trimToMaxPrompt [32; 9; 10; 160]%N MAX_PROMPT_CHARS = [].
Proof. apply trimToMaxPrompt_blank. reflexivity. Defined.

(** The composer *)

(** X4.  [buildStyledPrompt] ignores white space around the user prompt: the
    trimmed prompt composes to the same string. *)
Theorem buildStyledPrompt_ignores_outer_space (userPrompt : jsstring) (style : json) :
  buildStyledPrompt (trim userPrompt) style = buildStyledPrompt userPrompt style.
Proof.
  unfold buildStyledPrompt, buildStyledPrompt_full. by rewrite trim_trim.
Qed.

Lemma clauses_exact_length st :
  length (join LF (clauses st))
  = if is_string (Some st) (lit "animated3d") then 968 else 851.
Proof.
  unfold clauses, styleLine. destruct (is_string _ _); vm_compute; reflexivity.
Qed.

(** X5.  The clauses take 851 characters, 968 with the [animated3d] style.  A user
    prompt that is not blank and, trimmed, has at most 1195 characters (1078
    for [animated3d]) is kept whole: the composed prompt is the untruncated
    concatenation and starts with the trimmed user prompt. *)
Theorem short_prompt_kept_whole (userPrompt : jsstring) (style : json) :
  trim userPrompt ≠ [] →
  length (trim userPrompt)
  ≤ (if is_string (Some style) (lit "animated3d") then 1078 else 1195) →
  buildStyledPrompt userPrompt style = buildStyledPrompt_full userPrompt style
  ∧ trim userPrompt `prefix_of` buildStyledPrompt userPrompt style.
Proof.
  intros Hu Hlen.
  assert (length (buildStyledPrompt_full userPrompt style) ≤ 2048) as Hfull.
  { rewrite full_length, clauses_exact_length. destruct (is_string _ _); lia. }
  assert (buildStyledPrompt userPrompt style = buildStyledPrompt_full userPrompt style) as E.
  { unfold buildStyledPrompt, trimToMaxPrompt. cbv zeta. rewrite (trim_full _ _ Hu).
    destruct (Nat.leb_spec (length (buildStyledPrompt_full userPrompt style)) MAX_PROMPT_CHARS)
      as [_|Hgt]; [done|]. unfold MAX_PROMPT_CHARS in Hgt. lia. }
  split; [exact E|]. rewrite E. unfold buildStyledPrompt_full. by eexists.
Qed.

Lemma short_prompt_kept_whole_witness :
  buildStyledPrompt (lit " a fox in a forest ") (JStr (lit "animated3d"))
  = buildStyledPrompt_full (lit " a fox in a forest ") (JStr (lit "animated3d")).
Proof.
  apply (short_prompt_kept_whole (lit " a fox in a forest ") (JStr (lit "animated3d"))).
  - vm_compute. discriminate.
  - vm_compute. lia.
Defined.

(** X6.  A user prompt that is, trimmed, longer than that budget loses exactly
    its first characters: the composed prompt is the last [budget] characters
    of the trimmed prompt, the blank line and all clauses. *)
Theorem long_prompt_loses_head (userPrompt : jsstring) (style : json) :
  let budget := if is_string (Some style) (lit "animated3d") then 1078 else 1195 in
  budget < length (trim userPrompt) →
  buildStyledPrompt userPrompt style
  = drop (length (trim userPrompt) - budget) (trim userPrompt)
    ++ (LF ++ LF) ++ join LF (clauses style).
Proof.
  intros budget Hlen.
  assert (trim userPrompt ≠ []) as Hu by (intros E; rewrite E in Hlen; simpl in Hlen; lia).
  pose proof (full_length userPrompt style) as Hl. rewrite clauses_exact_length in Hl.
  unfold buildStyledPrompt, trimToMaxPrompt, slice. cbv zeta. rewrite (trim_full _ _ Hu).
  destruct (Nat.leb_spec (length (buildStyledPrompt_full userPrompt style)) MAX_PROMPT_CHARS)
    as [Hle|_].
  { unfold MAX_PROMPT_CHARS in Hle. subst budget. destruct (is_string _ _); lia. }
  set (n := length (buildStyledPrompt_full userPrompt style) - MAX_PROMPT_CHARS).
  assert (n = length (trim userPrompt) - budget) as <-.
  { subst n budget. unfold MAX_PROMPT_CHARS. destruct (is_string _ _); lia. }
  assert (n ≤ length (trim userPrompt)) as Hn.
  { subst n budget. unfold MAX_PROMPT_CHARS. destruct (is_string _ _); lia. }
  rewrite full_clauses. rewrite <- app_assoc. by rewrite drop_app_le.
Qed.

Lemma long_prompt_loses_head_witness :
  buildStyledPrompt long_prompt (JStr (lit "storybook"))
  = drop 5 long_prompt ++ (LF ++ LF) ++ join LF (clauses (JStr (lit "storybook"))).
Proof.
  apply (long_prompt_loses_head long_prompt (JStr (lit "storybook"))).
  apply Nat.ltb_lt. vm_compute. reflexivity.
Defined.

Local Close Scope nat_scope.

(** ** The allowlist and the response assembler *)

(** X7.  Every origin of the allowlist is non-empty and has no white space at
    either end. *)
Theorem allowlist_entries_trimmed (env : Env) (o : jsstring) :
  o ∈ parseAllowedOrigins env → o ≠ [] ∧ trim o = o.
Proof.
  intros [Hd|[(s & _ & -> & Hne)|(s & _ & Hin & Hne)]]%parseAllowedOrigins_spec.
  - unfold default_origins in Hd. rewrite !elem_of_cons, elem_of_nil in Hd.
    destruct Hd as [->|[->|[->|[->|[->|[]]]]]]; split; vm_compute; congruence.
  - split; [done|apply trim_trim].
  - apply list_elem_of_fmap in Hin as (p & -> & _). split; [done|apply trim_trim].
Qed.

Lemma allowlist_entries_trimmed_witness :
  lit "https://books.example" ≠ [] ∧ trim (lit "https://books.example") = lit "https://books.example".
Proof.
  apply (allowlist_entries_trimmed origins_config). vm_compute. reflexivity.
Defined.

Lemma overlay_lookup_other (h : gmap string jstext) ch k :
  (∀ kv, kv ∈ ch → lower kv.1 ≠ k) → overlay h ch !! k = h !! k.
Proof.
  unfold overlay. revert h. induction ch as [|kv ch IH]; intros h Hk; cbn [foldl]; [done|].
  rewrite IH by (intros kv' Hin; apply Hk; by right).
  unfold Headers_set. apply lookup_insert_ne, Hk. left.
Qed.

Lemma corsHeaders_names request env kv :
  kv ∈ corsHeaders request env → lower kv.1 ∈ cors_names.
Proof.
  unfold corsHeaders. cbv zeta.
  destruct (_ && _); rewrite ?elem_of_app, !elem_of_cons, !elem_of_nil; intros H;
    repeat (destruct H as [->|H] || destruct H as [H|H]); try done;
    cbn [fst]; lower_names; unfold cors_names; rewrite !elem_of_cons; auto 10.
Qed.

Lemma of_record_is_Some hs k :
  is_Some (of_record hs !! k) ↔ k ∈ (λ kv, lower kv.1) <$> hs.
Proof.
  unfold of_record.
  assert (∀ h : gmap string jstext,
            is_Some (foldl (λ h kv, Headers_set h kv.1 kv.2) h hs !! k)
            ↔ is_Some (h !! k) ∨ k ∈ (λ kv, lower kv.1) <$> hs) as Hgen.
  { induction hs as [|kv hs IH]; intros h; cbn [foldl].
    - rewrite fmap_nil, elem_of_nil. tauto.
    - rewrite IH, fmap_cons, elem_of_cons. unfold Headers_set.
      rewrite lookup_insert_is_Some. destruct (decide (lower kv.1 = k)); naive_solver. }
  rewrite Hgen, lookup_empty. split; [intros [[? [=]]|?]; done|by right].
Qed.

(** X8.  [respond] passes status and body through.  Of the headers other
    than the CORS headers and [Content-Type], the response has those that
    [init] names, in any case of the letters, and no other; [Vary],
    [Access-Control-Allow-Methods] and [Access-Control-Allow-Headers] have
    their fixed values whatever [init] gives under those names. *)
Theorem respond_keeps_other_headers (request : Request) (env : Env) (body : Body)
    (init : ResponseInit) (r : Response) :
  returns (respond request env body init) r →
  response_status r = init_status init
  ∧ response_body r = body
  ∧ (∀ name, lower name ∉ cors_names → lower name ≠ "content-type"%string →
       is_Some (Headers_get (response_headers r) name)
       ↔ lower name ∈ (λ kv, lower kv.1) <$> default [] (init_headers init))
  ∧ Headers_get (response_headers r) "Vary" = Some (text "Origin")
  ∧ Headers_get (response_headers r) "Access-Control-Allow-Methods"
    = Some (text "POST, OPTIONS")
  ∧ Headers_get (response_headers r) "Access-Control-Allow-Headers"
    = Some (text "Content-Type, Authorization").
Proof.
  intros ->%respond_inv. cbn [response_status response_body response_headers].
  split; [done|]. split; [done|]. split.
  - intros name Hname _. unfold Headers_get. rewrite <- of_record_is_Some.
    rewrite overlay_lookup_other; [done|].
    intros kv Hin Heq. apply Hname. rewrite <- Heq. by eapply corsHeaders_names.
  - unfold corsHeaders, overlay, Headers_get, Headers_set. cbv zeta.
    destruct (_ && _); cbn; lower_names; repeat split; by lookup_inserts.
Qed.

Ltac not_listed Hin :=
  repeat (let E := fresh in apply elem_of_cons in Hin as [E|Hin]; [discriminate E|]);
  by apply elem_of_nil in Hin.

Lemma respond_keeps_other_headers_witness :
  is_Some (Headers_get (response_headers seeded_response) "X-Model")
  ∧ ¬ is_Some (Headers_get (response_headers seeded_response) "X-Guidance").
Proof.
  destruct (respond_keeps_other_headers (post_generate ∅ seeded_body) no_config
              (BodyBytes [Byte.xff; Byte.xd8])
              {| init_status := 200;
                 init_headers := Some
                   (flux_headers seeded_body (JStr (lit "storybook"))
                      (buildStyledPrompt (lit "a fox in a forest")
                         (JStr (lit "storybook")))) |}
              seeded_response) as (_ & _ & Hother & _).
  - apply returns_NewHeaders with (r := None). constructor.
  - split.
    + apply Hother.
      * lower_names. unfold cors_names. intros Hin. not_listed Hin.
      * lower_names. discriminate.
      * unfold flux_headers. cbn [init_headers default from_option id fmap list_fmap fst].
        lower_names. rewrite !elem_of_cons. auto.
    + intros Hg. apply Hother in Hg.
      * unfold flux_headers in Hg.
        cbn [init_headers default from_option id fmap list_fmap fst] in Hg.
        lower_names. not_listed Hg.
      * lower_names. unfold cors_names. intros Hin. not_listed Hin.
      * lower_names. discriminate.
Defined.

(** ** The clamps *)

Lemma clamp_within mn mx v :
  number_leb mn mx = true → v ≠ NaN → within (clamp mn mx v) mn mx.
Proof.
  unfold within, clamp, Math_min, Math_max.
  destruct mn as [| [] |a], mx as [| [] |b], v as [| [] |x]; try done;
    unfold number_leb; intros Hb _; q_cases; try done; cbn; split;
    first [done | exfalso; lra | apply Qle_bool_iff; lra].
Qed.

Lemma finite_or_not_NaN round n fb : fb ≠ NaN → finite_or round n fb ≠ NaN.
Proof. destruct n as [[| |[| |x]| | |]|], round; simpl; done. Qed.

(** X9.  With [min <= max] and a fallback that is not NaN, both clamps return a
    number within the bounds, whatever the input. *)
Theorem clamp_in_range (n : value) (min max fallback : number) :
  number_leb min max = true → fallback ≠ NaN →
  within (clampInt n min max fallback) min max
  ∧ within (clampNum n min max fallback) min max.
Proof.
  intros Hb Hfb. rewrite clampInt_clamp, clampNum_clamp.
  split; apply clamp_within; auto using finite_or_not_NaN.
Qed.

Lemma clamp_in_range_witness :
  within (clampInt (Some (JNum (Finite 99999))) (Finite 256) (Finite 2048) (Finite 1344))
    (Finite 256) (Finite 2048).
Proof.
  apply (clamp_in_range (Some (JNum (Finite 99999))) (Finite 256) (Finite 2048) (Finite 1344));
    [reflexivity|discriminate].
Defined.

Lemma clamp_is_integer a b v :
  is_integer (Finite a) = true → is_integer (Finite b) = true → is_integer v = true →
  is_integer (clamp (Finite a) (Finite b) v) = true.
Proof.
  intros Ha Hb Hv. destruct v as [| |x]; try done.
  unfold clamp, Math_min, Math_max, number_leb.
  destruct (Qle_bool a x), (Qle_bool b x), (Qle_bool b a); done.
Qed.

Lemma finite_or_is_integer n fb :
  is_integer fb = true → is_integer (finite_or true n fb) = true.
Proof.
  intros Hfb. destruct n as [[| |[| |x]| | |]|]; simpl; try done.
  apply (Math_round_is_integer x).
Qed.

(** X10.  With integer bounds and an integer fallback, [clampInt] returns an
    integer, whatever the input. *)
Theorem clampInt_integer (n : value) (min max fallback : number) :
  is_integer min = true → is_integer max = true → is_integer fallback = true →
  is_integer (clampInt n min max fallback) = true.
Proof.
  intros Ha Hb Hfb. destruct min as [| |a], max as [| |b]; try done.
  rewrite clampInt_clamp. apply clamp_is_integer; [done..|].
  by apply finite_or_is_integer.
Qed.

(** The clamps of the handler: integer bounds and fallback, none of them NaN. *)
Ltac integer_clamp :=
  rewrite clampInt_clamp; apply clamp_is_integer;
  [reflexivity|reflexivity|by apply finite_or_is_integer].

Ltac ranged_clamp :=
  rewrite ?clampInt_clamp, ?clampNum_clamp; apply clamp_within;
  [reflexivity|by apply finite_or_not_NaN].

Lemma clampInt_integer_witness :
  is_integer (clampInt (Some (JNum (Finite (5 # 2)))) (Finite 1) (Finite 8) (Finite 6)) = true.
Proof. apply clampInt_integer; reflexivity. Defined.

(** X11.  Out-of-range input is saturated, not rejected: with [min <= max], a
    finite [x >= max] gives [max] and a finite [x <= min] gives [min]. *)
Theorem clampNum_saturates (x : Q) (min max fallback : number) :
  number_leb min max = true →
  (number_leb max (Finite x) = true →
   same_number (clampNum (Some (JNum (Finite x))) min max fallback) max)
  ∧ (number_leb (Finite x) min = true →
     same_number (clampNum (Some (JNum (Finite x))) min max fallback) min).
Proof.
  rewrite clampNum_clamp. cbn [finite_or Number_isFinite].
  unfold clamp, Math_min, Math_max.
  destruct min as [| [] |a], max as [| [] |b]; try done;
    unfold number_leb; intros Hb; split; intros Hx; q_cases; try done;
    cbn [same_number]; lra.
Qed.

Lemma clampNum_saturates_witness :
  same_number (clampNum (Some (JNum (Finite (-5)))) (Finite 1) (Finite 20) (Finite (15 # 2)))
    (Finite 1).
Proof.
  apply (proj2 (clampNum_saturates (-5) (Finite 1) (Finite 20) (Finite (15 # 2)) eq_refl)).
  reflexivity.
Defined.

Lemma clamp_monotone mn mx v w :
  number_leb v w = true → mn ≠ NaN → mx ≠ NaN →
  number_leb (clamp mn mx v) (clamp mn mx w) = true.
Proof.
  unfold clamp, Math_min, Math_max.
  destruct mn as [| [] |a], mx as [| [] |b], v as [| [] |x], w as [| [] |y]; try done;
    unfold number_leb; intros Hvw _ _; q_cases; try done; cbn;
    first [done | exfalso; lra | apply Qle_bool_iff; lra].
Qed.

Lemma Math_round_monotone x y :
  (x <= y)%Q → number_leb (Math_round (Finite x)) (Math_round (Finite y)) = true.
Proof.
  intros H. unfold Math_round, number_leb. apply Qle_bool_iff.
  rewrite <- Zle_Qle. apply Qfloor_resp_le. lra.
Qed.

(** X12.  Both clamps are monotone in a finite input, for bounds that are not NaN. *)
Theorem clamp_monotone_in_input (x y : Q) (min max fallback : number) :
  (x <= y)%Q → min ≠ NaN → max ≠ NaN →
  number_leb (clampNum (Some (JNum (Finite x))) min max fallback)
             (clampNum (Some (JNum (Finite y))) min max fallback) = true
  ∧ number_leb (clampInt (Some (JNum (Finite x))) min max fallback)
               (clampInt (Some (JNum (Finite y))) min max fallback) = true.
Proof.
  intros Hxy Hmin Hmax. rewrite !clampNum_clamp, !clampInt_clamp.
  cbn [finite_or Number_isFinite]. split; apply clamp_monotone; try done.
  - by apply Qle_bool_iff.
  - by apply Math_round_monotone.
Qed.

Lemma clamp_monotone_in_input_witness :
  number_leb (clampInt (Some (JNum (Finite 3))) (Finite 1) (Finite 8) (Finite 6))
             (clampInt (Some (JNum (Finite 12))) (Finite 1) (Finite 8) (Finite 6)) = true.
Proof.
  apply (clamp_monotone_in_input 3 12 (Finite 1) (Finite 8) (Finite 6)); [lra|done|done].
Defined.

(** X13.  Whatever is not a finite number (a numeric string, [null], NaN, an
    infinity) is never coerced: both clamps return what they return for
    [undefined]. *)
Theorem clamp_uses_fallback (n : value) (min max fallback : number) :
  (∀ x, n ≠ Some (JNum (Finite x))) →
  clampInt n min max fallback = clampInt None min max fallback
  ∧ clampNum n min max fallback = clampNum None min max fallback.
Proof.
  intros Hn. destruct n as [[| |[| |x]| | |]|]; try done. by destruct (Hn x).
Qed.

Lemma clamp_uses_fallback_witness :
  clampInt (Some (JStr (lit "5"))) (Finite 1) (Finite 8) (Finite 6)
  = clampInt None (Finite 1) (Finite 8) (Finite 6).
Proof.
  apply (clamp_uses_fallback (Some (JStr (lit "5"))) (Finite 1) (Finite 8) (Finite 6)).
  intros x. discriminate.
Defined.

(** ** Routing and validation *)

Lemma fetch_authorized request env :
  request_pathname request = lit "/api/generate" →
  request_method request = lit "POST" →
  authorized request env →
  fetch request env = fetch_generate request env.
Proof.
  intros Hp Hm Ha. rewrite (fetch_post_generate _ _ Hp Hm).
  unfold authorized in Ha. destruct (API_KEY env) as [[|c key]|] eqn:Ek; try done.
  cbn [or_empty default from_option id].
  assert (nonempty (c :: key) = true) as -> by (by apply nonempty_true). cbv zeta.
  fold (or_empty (Headers_get (request_headers request) "Authorization")).
  rewrite (token_matches _ (c :: key)) by done.
  by rewrite bool_decide_eq_true_2.
Qed.

Lemma fetch_unauthorized request env :
  request_pathname request = lit "/api/generate" →
  request_method request = lit "POST" →
  ¬ authorized request env →
  fetch request env
  = Ret (plain_response request env 401 (BodyText (text "Unauthorized"))).
Proof.
  intros Hp Hm Ha. rewrite (fetch_post_generate _ _ Hp Hm).
  unfold authorized in Ha. destruct (API_KEY env) as [[|c key]|] eqn:Ek; try done.
  cbn [or_empty default from_option id].
  assert (nonempty (c :: key) = true) as -> by (by apply nonempty_true). cbv zeta.
  fold (or_empty (Headers_get (request_headers request) "Authorization")).
  rewrite (token_matches _ (c :: key)) by done.
  by rewrite bool_decide_eq_false_2.
Qed.

(** X14.  Routing comes first.  Apart from [/__version] and [OPTIONS], a request
    for another path than [/api/generate] is answered 404 [Not found], and a
    request for [/api/generate] with another method than [POST] is answered
    405 [Method not allowed]: no credentials are needed and the body is not
    read. *)
Theorem routing_errors (request : Request) (env : Env) :
  request_pathname request ≠ lit "/__version" →
  request_method request ≠ lit "OPTIONS" →
  (request_pathname request ≠ lit "/api/generate" →
   fetch request env = Ret (plain_response request env 404 (BodyText (text "Not found"))))
  ∧ (request_pathname request = lit "/api/generate" →
     request_method request ≠ lit "POST" →
     fetch request env
     = Ret (plain_response request env 405 (BodyText (text "Method not allowed")))).
Proof.
  intros Hv Ho. unfold fetch.
  rewrite (bool_decide_eq_false_2 _ Hv), (bool_decide_eq_false_2 _ Ho). split.
  - intros Hg. by rewrite (bool_decide_eq_false_2 _ Hg).
  - intros Hg Hp. by rewrite (bool_decide_eq_true_2 _ Hg), (bool_decide_eq_false_2 _ Hp).
Qed.

Lemma routing_errors_witness :
  fetch get_missing no_config
  = Ret (plain_response get_missing no_config 404 (BodyText (text "Not found"))).
Proof.
  apply (routing_errors get_missing no_config); by vm_compute.
Defined.

(** X15.  Every request for [/__version], whatever its method, its headers and the
    configured secret, is answered 200 with the version text and the full
    set of CORS headers. *)
Theorem version_needs_no_credentials (request : Request) (env : Env) :
  request_pathname request = lit "/__version" →
  fetch request env = Ret (plain_response request env 200 (BodyText VERSION_TEXT))
  ∧ full_cors request env (response_headers (plain_response request env 200 (BodyText VERSION_TEXT))).
Proof.
  intros Hv. unfold fetch. rewrite (bool_decide_eq_true_2 _ Hv). split; [done|].
  by apply overlay_full_cors.
Qed.

Lemma version_needs_no_credentials_witness :
  fetch get_version secret_config
  = Ret (plain_response get_version secret_config 200 (BodyText VERSION_TEXT)).
Proof.
  apply (version_needs_no_credentials get_version secret_config). reflexivity.
Defined.

Lemma truthy_string s : truthy (Some (JStr s)) = nonempty s.
Proof. reflexivity. Qed.

Lemma fetch_generate_accepted request env body s :
  request_json request = Some body → accepted_prompt body = Some s →
  fetch_generate request env = dispatch request env body s.
Proof.
  intros Hj Ha. unfold fetch_generate, accepted_prompt in *. rewrite Hj.
  destruct body as [|b|n|s0|l|o]; try done.
  destruct (prop (JObj o) "prompt") as [[| | |s'| |]|] eqn:Ep; try done.
  destruct (Nat.leb_spec 3 (length (trim s'))) as [Hlen|Hlen]; [|done].
  injection Ha as ->. rewrite truthy_string.
  assert (nonempty s = true) as ->.
  { apply nonempty_true. intros ->. vm_compute in Hlen. lia. }
  cbn [negb]. destruct (Nat.ltb_spec (length (trim s)) 3); [lia|]. reflexivity.
Qed.

Lemma fetch_generate_not_accepted request env body :
  request_json request = Some body → accepted_prompt body = None →
  (malformed_prompt body ∧ ∃ e, fetch_generate request env = Raise e)
  ∨ (¬ malformed_prompt body
     ∧ fetch_generate request env
       = Ret (plain_response request env 400 (BodyText (text "prompt is required")))).
Proof.
  intros Hj Ha. unfold fetch_generate, accepted_prompt, malformed_prompt in *. rewrite Hj.
  rewrite !respond_status_only.
  destruct body as [|b|n|s0|l|o]; try (right; split; [intros [?|[? _]]; done|done]).
  { left. split; [by left|by eexists]. }
  destruct (prop (JObj o) "prompt") as [p|] eqn:Ep;
    [|right; split; [intros [?|[? _]]; done|done]].
  destruct (truthy (Some p)) eqn:Et; cbn [negb];
    [|right; split; [intros [?|[? _]]; done|done]].
  destruct p as [|b|n|s| |];
    try (left; split; [right; split; [done|intros ?; done]|by eexists]).
  destruct (Nat.leb_spec 3 (length (trim s))) as [Hlen|Hlen]; [done|].
  destruct (Nat.ltb_spec (length (trim s)) 3); [|lia].
  right. split; [|done]. intros [?|[_ Hs]]; [done|]. by destruct (Hs s).
Qed.

(** The decision table of [fetch]. *)
Lemma fetch_cases request env :
  (request_pathname request = lit "/__version"
   ∧ fetch request env = Ret (plain_response request env 200 (BodyText VERSION_TEXT)))
  ∨ (request_pathname request ≠ lit "/__version"
     ∧ request_method request = lit "OPTIONS"
     ∧ fetch request env = Ret (plain_response request env 204 BodyNull))
  ∨ (request_pathname request ≠ lit "/__version"
     ∧ request_method request ≠ lit "OPTIONS"
     ∧ request_pathname request ≠ lit "/api/generate"
     ∧ fetch request env = Ret (plain_response request env 404 (BodyText (text "Not found"))))
  ∨ (request_pathname request = lit "/api/generate"
     ∧ request_method request ≠ lit "OPTIONS"
     ∧ request_method request ≠ lit "POST"
     ∧ fetch request env
       = Ret (plain_response request env 405 (BodyText (text "Method not allowed"))))
  ∨ (routed request ∧ ¬ authorized request env
     ∧ fetch request env = Ret (plain_response request env 401 (BodyText (text "Unauthorized"))))
  ∨ (routed request ∧ authorized request env ∧ request_json request = None
     ∧ fetch request env = Ret (plain_response request env 400 (BodyText (text "Invalid JSON"))))
  ∨ (routed request ∧ authorized request env
     ∧ ∃ body, request_json request = Some body ∧ accepted_prompt body = None
       ∧ ¬ malformed_prompt body
       ∧ fetch request env
         = Ret (plain_response request env 400 (BodyText (text "prompt is required"))))
  ∨ (routed request ∧ authorized request env
     ∧ ∃ body, request_json request = Some body ∧ malformed_prompt body
       ∧ ∃ e, fetch request env = Raise e)
  ∨ (routed request ∧ authorized request env
     ∧ ∃ body s, request_json request = Some body ∧ accepted_prompt body = Some s
       ∧ fetch request env = dispatch request env body s).
Proof.
  destruct (decide (request_pathname request = lit "/__version")) as [Hv|Hv].
  { left. split; [done|]. unfold fetch. by rewrite (bool_decide_eq_true_2 _ Hv). }
  right. destruct (decide (request_method request = lit "OPTIONS")) as [Ho|Ho].
  { left. split; [done|]. split; [done|]. unfold fetch.
    by rewrite (bool_decide_eq_false_2 _ Hv), (bool_decide_eq_true_2 _ Ho). }
  right. destruct (decide (request_pathname request = lit "/api/generate")) as [Hg|Hg].
  2:{ left. do 3 (split; [done|]). unfold fetch.
      by rewrite (bool_decide_eq_false_2 _ Hv), (bool_decide_eq_false_2 _ Ho),
        (bool_decide_eq_false_2 _ Hg). }
  right. destruct (decide (request_method request = lit "POST")) as [Hp|Hp].
  2:{ left. do 3 (split; [done|]). unfold fetch.
      by rewrite (bool_decide_eq_false_2 _ Hv), (bool_decide_eq_false_2 _ Ho),
        (bool_decide_eq_true_2 _ Hg), (bool_decide_eq_false_2 _ Hp). }
  right. assert (routed request) as Hr by done.
  destruct (decide (authorized request env)) as [Ha|Ha].
  2:{ left. do 2 (split; [done|]). by apply fetch_unauthorized. }
  right. rewrite (fetch_authorized _ _ Hg Hp Ha).
  destruct (request_json request) as [body|] eqn:Hj.
  2:{ left. do 3 (split; [done|]). unfold fetch_generate. by rewrite Hj. }
  right. destruct (accepted_prompt body) as [s|] eqn:Hacc.
  { do 2 right. do 2 (split; [done|]). exists body, s. do 2 (split; [done|]).
    by apply fetch_generate_accepted. }
  destruct (fetch_generate_not_accepted request env body Hj Hacc) as [[Hm He]|[Hm He]].
  - right. left. do 2 (split; [done|]). exists body. by do 2 (split; [done|]).
  - left. do 2 (split; [done|]). exists body. by do 3 (split; [done|]).
Qed.

(** ** Calls of the generation capability *)

Lemma ai_free_bind {A B} (m : Prog A) (f : A → Prog B) :
  ai_free m → (∀ a, ai_free (f a)) → ai_free (m ≫= f).
Proof.
  unfold mbind, Prog_bind. intros Hm Hf.
  induction Hm as [a|e|data k _ IH|init k _ IH]; simpl; [done|constructor..]; done.
Qed.

Lemma ai_free_try_catch {A} (m : Prog A) h :
  ai_free m → (∀ e, ai_free (h e)) → ai_free (try_catch m h).
Proof.
  intros Hm Hh.
  induction Hm as [a|e|data k _ IH|init k _ IH]; simpl; [constructor|done|constructor..]; done.
Qed.

Lemma ai_free_settle {A} (r : thrown + A) : ai_free (settle r).
Proof. destruct r; constructor. Qed.

Lemma ai_free_respond request env body init : ai_free (respond request env body init).
Proof.
  unfold respond, new_Headers, mbind, Prog_bind.
  destruct (init_headers init); simpl; [|constructor].
  constructor. intros [e|]; constructor.
Qed.

Lemma ai_free_atob data : ai_free (atob data).
Proof. constructor. apply ai_free_settle. Qed.

Lemma calls_once_fetch_flux request env body style prompt :
  calls_once (fetch_flux request env body style prompt).
Proof.
  unfold fetch_flux, ai_run. cbv zeta. unfold mbind at 1. unfold Prog_bind.
  cbn [bind try_catch]. apply calls_once_AiRun. intros r.
  apply ai_free_try_catch; [|intros e; apply ai_free_respond].
  apply (ai_free_bind (settle r)); [apply ai_free_settle|]. intros v.
  repeat match goal with
  | |- ai_free (match ?x with _ => _ end) => destruct x
  | |- ai_free (respond _ _ _ _) => apply ai_free_respond
  | |- ai_free (_ ≫= _) => apply ai_free_bind; [apply ai_free_atob|intros ?]
  end.
Qed.

Lemma calls_once_fetch_sdxl request env body style prompt :
  calls_once (fetch_sdxl request env body style prompt).
Proof.
  rewrite fetch_sdxl_unfold.
  destruct (negative_prompt_throws body); [apply calls_once_free; constructor|].
  unfold ai_run. unfold mbind at 1. unfold Prog_bind.
  cbn [bind try_catch]. apply calls_once_AiRun. intros r.
  apply ai_free_try_catch; [|intros e; apply ai_free_respond].
  apply (ai_free_bind (settle r)); [apply ai_free_settle|]. intros v.
  apply ai_free_respond.
Qed.

(** X16.  The handler calls the generation capability at most once per request,
    on every path and whatever the platform answers. *)
Theorem fetch_calls_once (request : Request) (env : Env) :
  calls_once (fetch request env).
Proof.
  destruct (fetch_cases request env)
    as [[_ ->]|[(_ & _ & ->)|[(_ & _ & _ & ->)|[(_ & _ & _ & ->)|[(_ & _ & ->)
       |[(_ & _ & _ & ->)|[(_ & _ & body & _ & _ & _ & ->)|[(_ & _ & body & _ & _ & e & ->)
       |(_ & _ & body & s & _ & _ & ->)]]]]]]]];
    try (apply calls_once_free; constructor).
  unfold dispatch.
  destruct (is_string _ _); [apply calls_once_fetch_flux|apply calls_once_fetch_sdxl].
Qed.

Lemma runs_ai_fetch_flux request env body style prompt model inputs :
  runs_ai (fetch_flux request env body style prompt) model inputs →
  model = flux_model ∧ inputs = flux_inputs body prompt.
Proof. unfold fetch_flux. intros H. ai_calls; done. Qed.

Lemma runs_ai_fetch_sdxl request env body style prompt model inputs :
  runs_ai (fetch_sdxl request env body style prompt) model inputs →
  model = sdxl_model ∧ inputs = sdxl_inputs body prompt
  ∧ negative_prompt_throws body = false.
Proof.
  rewrite fetch_sdxl_unfold. destruct (negative_prompt_throws body); intros H.
  - inversion H.
  - ai_calls; done.
Qed.

Lemma runs_ai_fetch_inv_strong request env model inputs :
  runs_ai (fetch request env) model inputs →
  routed request ∧ authorized request env
  ∧ ∃ body s, request_json request = Some body ∧ accepted_prompt body = Some s
    ∧ if is_string (Some (body_model body)) (lit "flux")
      then model = flux_model
           ∧ inputs = flux_inputs body (buildStyledPrompt s (body_style body))
      else model = sdxl_model
           ∧ inputs = sdxl_inputs body (buildStyledPrompt s (body_style body))
           ∧ negative_prompt_throws body = false.
Proof.
  destruct (fetch_cases request env)
    as [[_ ->]|[(_ & _ & ->)|[(_ & _ & _ & ->)|[(_ & _ & _ & ->)|[(_ & _ & ->)
       |[(_ & _ & _ & ->)|[(_ & _ & body & _ & _ & _ & ->)|[(_ & _ & body & _ & _ & e & ->)
       |(Hr & Ha & body & s & Hj & Hacc & ->)]]]]]]]];
    try (intros H; by inversion H).
  intros H. do 2 (split; [done|]). exists body, s. do 2 (split; [done|]).
  unfold dispatch in H. destruct (is_string _ _).
  - by apply runs_ai_fetch_flux in H.
  - by apply runs_ai_fetch_sdxl in H.
Qed.

Lemma runs_ai_fetch_inv request env model inputs :
  runs_ai (fetch request env) model inputs →
  routed request ∧ authorized request env
  ∧ ∃ body s, request_json request = Some body ∧ accepted_prompt body = Some s
    ∧ if is_string (Some (body_model body)) (lit "flux")
      then model = flux_model
           ∧ inputs = flux_inputs body (buildStyledPrompt s (body_style body))
      else model = sdxl_model
           ∧ inputs = sdxl_inputs body (buildStyledPrompt s (body_style body)).
Proof.
  intros (Hr & Ha & body & s & Hj & Hacc & Hd)%runs_ai_fetch_inv_strong.
  do 2 (split; [done|]). exists body, s. do 2 (split; [done|]).
  destruct (is_string _ _); [done|]. by destruct Hd as (? & ? & _).
Qed.

Lemma accepted_prompt_inv body s :
  accepted_prompt body = Some s →
  prop body "prompt" = Some (JStr s) ∧ (3 ≤ length (trim s))%nat.
Proof.
  unfold accepted_prompt. destruct (prop body "prompt") as [[| | |s'| |]|]; try done.
  destruct (Nat.leb_spec 3 (length (trim s'))); [|done]. by intros [= ->].
Qed.

Lemma inputs_prompt body prompt :
  flux_inputs body prompt !! "prompt"%string = Some (ArgText [Chars prompt])
  ∧ sdxl_inputs body prompt !! "prompt"%string = Some (ArgText [Chars prompt]).
Proof.
  unfold flux_inputs, sdxl_inputs, seed_spread.
  destruct (prop body "seed") as [[]|]; rewrite ?(left_id ∅ _);
    split; try reflexivity;
    (rewrite lookup_union_r by reflexivity); reflexivity.
Qed.

(** X17.  The generation capability is called only for [POST /api/generate] with
    the credentials the configuration asks for and a body whose [prompt] is
    a string of at least 3 characters once trimmed; the [prompt] it is given
    is the composed prompt, of at most 2048 characters. *)
Theorem generation_needs_valid_request (request : Request) (env : Env)
    (model : jsstring) (inputs : gmap string arg) :
  runs_ai (fetch request env) model inputs →
  request_pathname request = lit "/api/generate"
  ∧ request_method request = lit "POST"
  ∧ authorized request env
  ∧ ∃ body s,
      request_json request = Some body
      ∧ prop body "prompt" = Some (JStr s)
      ∧ (3 ≤ length (trim s))%nat
      ∧ inputs !! "prompt"%string
        = Some (ArgText [Chars (buildStyledPrompt s (body_style body))])
      ∧ (length (buildStyledPrompt s (body_style body)) ≤ 2048)%nat.
Proof.
  intros ([Hp Hm] & Ha & body & s & Hj & Hacc & Hd)%runs_ai_fetch_inv.
  do 3 (split; [done|]). exists body, s.
  apply accepted_prompt_inv in Hacc as [Hs Hlen]. do 3 (split; [done|]).
  split; [|apply trimToMaxPrompt_length].
  destruct (is_string _ _); destruct Hd as [_ ->]; apply inputs_prompt.
Qed.

Lemma generation_needs_valid_request_witness :
  request_pathname (post_generate ∅ seeded_body) = lit "/api/generate"
  ∧ request_method (post_generate ∅ seeded_body) = lit "POST"
  ∧ authorized (post_generate ∅ seeded_body) no_config
  ∧ ∃ body s,
      request_json (post_generate ∅ seeded_body) = Some body
      ∧ prop body "prompt" = Some (JStr s)
      ∧ (3 ≤ length (trim s))%nat
      ∧ seeded_inputs !! "prompt"%string
        = Some (ArgText [Chars (buildStyledPrompt s (body_style body))])
      ∧ (length (buildStyledPrompt s (body_style body)) ≤ 2048)%nat.
Proof.
  apply (generation_needs_valid_request (post_generate ∅ seeded_body) no_config
           flux_model seeded_inputs).
  eapply runs_ai_eq. reflexivity.
Defined.

(** X18.  The model called is FLUX exactly when the body has no [model], a [null]
    one, or the string [flux]; every other value of [model] selects SDXL. *)
Theorem model_selection (request : Request) (env : Env)
    (model : jsstring) (inputs : gmap string arg) :
  runs_ai (fetch request env) model inputs →
  ∃ body, request_json request = Some body
    ∧ (model = flux_model
       ↔ prop body "model" = None ∨ prop body "model" = Some JNull
         ∨ prop body "model" = Some (JStr (lit "flux")))
    ∧ (model ≠ flux_model → model = sdxl_model).
Proof.
  intros (_ & _ & body & s & Hj & _ & Hd)%runs_ai_fetch_inv.
  exists body. split; [done|]. unfold body_model, is_string, nullish_or in Hd.
  assert (sdxl_model ≠ flux_model) as Hne by (vm_compute; discriminate).
  destruct (prop body "model") as [[| | |m| |]|]; try case_bool_decide;
    destruct Hd as [-> _]; split; try done; try naive_solver.
Qed.

Lemma model_selection_witness :
  ∃ body, request_json (post_generate ∅ seeded_body) = Some body
    ∧ (flux_model = flux_model
       ↔ prop body "model" = None ∨ prop body "model" = Some JNull
         ∨ prop body "model" = Some (JStr (lit "flux")))
    ∧ (flux_model ≠ flux_model → flux_model = sdxl_model).
Proof.
  apply (model_selection (post_generate ∅ seeded_body) no_config flux_model seeded_inputs).
  eapply runs_ai_eq. reflexivity.
Defined.

Lemma seed_spread_other body (m : gmap string arg) k :
  k ≠ "seed"%string → (seed_spread body ∪ m) !! k = m !! k.
Proof.
  intros Hk. apply lookup_union_r. unfold seed_spread.
  destruct (prop body "seed") as [[]|]; try apply lookup_empty.
  by apply lookup_singleton_ne.
Qed.

Lemma seed_spread_is_Some body k :
  is_Some (seed_spread body !! k) → k = "seed"%string.
Proof.
  unfold seed_spread. destruct (prop body "seed") as [[]|];
    rewrite ?lookup_empty; try (by intros [? [=]]).
  intros [x [<- _]%lookup_singleton_Some]. done.
Qed.

Ltac keys_of H :=
  repeat (apply lookup_insert_is_Some in H as [<-|[_ H]];
          [rewrite !elem_of_cons; auto 10|]);
  destruct H as [? [<- _]%lookup_singleton_Some]; rewrite !elem_of_cons; auto 10.

(** X19.  The FLUX call has no other parameters than [prompt], [steps] and
    [seed]; [steps] is an integer from 1 to 8, and 6 when the body gives no
    finite number. *)
Theorem flux_parameters (request : Request) (env : Env) (inputs : gmap string arg) :
  runs_ai (fetch request env) flux_model inputs →
  ∃ body steps,
    request_json request = Some body
    ∧ (∀ k, is_Some (inputs !! k) → k ∈ ["prompt"; "steps"; "seed"]%string)
    ∧ inputs !! "steps"%string = Some (ArgNumber steps)
    ∧ is_integer steps = true
    ∧ within steps (Finite 1) (Finite 8)
    ∧ ((∀ x, prop body "steps" ≠ Some (JNum (Finite x))) → steps = Finite 6).
Proof.
  intros (_ & _ & body & s & Hj & _ & Hd)%runs_ai_fetch_inv.
  assert (sdxl_model ≠ flux_model) as Hne by (vm_compute; discriminate).
  destruct (is_string _ _); destruct Hd as [Hm ->]; [|by destruct Hne].
  exists body, (clampInt (prop body "steps") (Finite 1) (Finite 8) (Finite 6)).
  split; [done|]. unfold flux_inputs. split; [|split; [|split; [|split]]].
  - intros k [Hk|Hk]%lookup_union_is_Some.
    + apply seed_spread_is_Some in Hk as ->. rewrite !elem_of_cons. auto.
    + keys_of Hk.
  - by rewrite seed_spread_other.
  - integer_clamp.
  - ranged_clamp.
  - intros Hx. destruct (prop body "steps") as [[| |[| |x]| | |]|]; try done.
    by destruct (Hx x).
Qed.

Lemma flux_parameters_witness :
  seeded_inputs !! "steps"%string = Some (ArgNumber (Finite 6)).
Proof.
  destruct (flux_parameters (post_generate ∅ seeded_body) no_config seeded_inputs)
    as (body & steps & [= <-] & _ & Hsteps & _ & _ & Hfallback).
  - eapply runs_ai_eq. reflexivity.
  - rewrite Hsteps, Hfallback; [reflexivity|]. intros x. vm_compute. discriminate.
Defined.

(** X20.  The SDXL call has no other parameters than [prompt],
    [negative_prompt], [width], [height], [num_steps], [guidance] and
    [seed]; [width] and [height] are integers from 256 to 2048, [num_steps]
    an integer from 1 to 20, [guidance] a number from 1 to 20, with the
    defaults 1344, 768, 20 and 7.5 for a body that has none; the negative
    prompt always ends with the no-text clause, and is that clause alone
    when the body has none. *)
Theorem sdxl_parameters (request : Request) (env : Env) (inputs : gmap string arg) :
  runs_ai (fetch request env) sdxl_model inputs →
  ∃ body width height num_steps guidance negative,
    request_json request = Some body
    ∧ (∀ k, is_Some (inputs !! k) →
         k ∈ ["prompt"; "negative_prompt"; "width"; "height"; "num_steps";
              "guidance"; "seed"]%string)
    ∧ inputs !! "width"%string = Some (ArgNumber width)
    ∧ inputs !! "height"%string = Some (ArgNumber height)
    ∧ inputs !! "num_steps"%string = Some (ArgNumber num_steps)
    ∧ inputs !! "guidance"%string = Some (ArgNumber guidance)
    ∧ inputs !! "negative_prompt"%string
      = Some (ArgText (negative ++ [Chars strongNoTextNegative]))
    ∧ (is_integer width = true ∧ within width (Finite 256) (Finite 2048))
    ∧ (is_integer height = true ∧ within height (Finite 256) (Finite 2048))
    ∧ (is_integer num_steps = true ∧ within num_steps (Finite 1) (Finite 20))
    ∧ within guidance (Finite 1) (Finite 20)
    ∧ (prop body "width" = None → width = Finite 1344)
    ∧ (prop body "height" = None → height = Finite 768)
    ∧ (prop body "num_steps" = None → num_steps = Finite 20)
    ∧ (prop body "guidance" = None → guidance = Finite (15 # 2))
    ∧ (prop body "negative_prompt" = None → negative = []).
Proof.
  intros (_ & _ & body & s & Hj & _ & Hd)%runs_ai_fetch_inv.
  assert (sdxl_model ≠ flux_model) as Hne by (vm_compute; discriminate).
  destruct (is_string _ _); destruct Hd as [Hm ->]; [by destruct Hne|].
  exists body,
    (clampInt (prop body "width") (Finite 256) (Finite 2048) (Finite 1344)),
    (clampInt (prop body "height") (Finite 256) (Finite 2048) (Finite 768)),
    (clampInt (prop body "num_steps") (Finite 1) (Finite 20) (Finite 20)),
    (clampNum (prop body "guidance") (Finite 1) (Finite 20) (Finite (15 # 2))),
    (match prop body "negative_prompt" with
     | Some n => if truthy (Some n) then ToString n ++ [Chars (lit ", ")] else []
     | None => []
     end).
  split; [done|]. unfold sdxl_inputs. split.
  { intros k [Hk|Hk]%lookup_union_is_Some.
    - apply seed_spread_is_Some in Hk as ->. rewrite !elem_of_cons. auto 10.
    - keys_of Hk. }
  rewrite !seed_spread_other by done.
  do 4 (split; [reflexivity|]). split.
  { rewrite lookup_insert_ne, lookup_insert_eq by done. do 2 f_equal.
    unfold sdxl_negative_prompt. destruct (prop body "negative_prompt") as [n|]; [|done].
    destruct (truthy (Some n)); [|done]. by rewrite <- app_assoc. }
  do 3 (split; [split; [integer_clamp|ranged_clamp]|]).
  split; [ranged_clamp|].
  repeat split; by intros ->.
Qed.

Lemma sdxl_parameters_witness :
  ∃ width guidance,
    sdxl_body_inputs !! "width"%string = Some (ArgNumber width)
    ∧ sdxl_body_inputs !! "guidance"%string = Some (ArgNumber guidance)
    ∧ is_integer width = true
    ∧ within width (Finite 256) (Finite 2048)
    ∧ within guidance (Finite 1) (Finite 20).
Proof.
  destruct (sdxl_parameters (post_generate ∅ sdxl_body) no_config sdxl_body_inputs)
    as (body & width & height & num_steps & guidance & negative & _ & _ & Hw & _ & _
        & Hg & _ & [Hi Hr] & _ & _ & Hgr & _).
  - eapply runs_ai_eq. reflexivity.
  - by exists width, guidance.
Defined.

(** ** Running the handler *)

Lemma run_returns {A} pf (m : Prog A) a : run pf m = inr a → returns m a.
Proof.
  induction m as [a'|e|model inputs k IH|data k IH|init k IH]; simpl; intros H.
  - injection H as ->. constructor.
  - discriminate.
  - econstructor. eauto.
  - econstructor. eauto.
  - econstructor. eauto.
Qed.

Lemma run_throws {A} pf (m : Prog A) e : run pf m = inl e → throws m e.
Proof.
  induction m as [a'|e'|model inputs k IH|data k IH|init k IH]; simpl; intros H.
  - discriminate.
  - injection H as ->. constructor.
  - econstructor. eauto.
  - econstructor. eauto.
  - econstructor. eauto.
Qed.

Lemma run_fetch_flux pf request env body style prompt :
  run pf (fetch_flux request env body style prompt)
  = match platform_ai pf flux_model (flux_inputs body prompt) with
    | inl e => inr (bad_gateway request env e)
    | inr response =>
        match flux_image response with
        | None =>
            inr (plain_response request env 502 (BodyText (text "Model returned no image")))
        | Some b64 =>
            match platform_atob pf b64 with
            | inl e => inr (bad_gateway request env e)
            | inr bytes =>
                match platform_headers pf (flux_headers body style prompt) with
                | Some e => inr (bad_gateway request env e)
                | None =>
                    inr (image_response request env (BodyBytes bytes)
                           (flux_headers body style prompt))
                end
            end
        end
    end.
Proof.
  unfold fetch_flux, ai_run. cbv zeta. unfold mbind at 1. unfold Prog_bind.
  cbn [bind try_catch run]. unfold flux_inputs.
  destruct (platform_ai pf flux_model _) as [e|response]; [reflexivity|].
  unfold flux_image. cbn [settle bind].
  destruct response as [[o|]|data]; try reflexivity.
  destruct (prop o "image") as [[| | |s| |]|]; try reflexivity.
  destruct (nonempty s); [|reflexivity].
  unfold atob, mbind, Prog_bind. cbn [bind try_catch run].
  destruct (platform_atob pf s) as [e|bytes]; [reflexivity|].
  cbn [settle bind]. unfold respond, new_Headers, mbind, Prog_bind.
  cbn [init_headers bind try_catch run]. fold (flux_headers body style prompt).
  destruct (platform_headers pf (flux_headers body style prompt)); reflexivity.
Qed.

Lemma run_fetch_sdxl_throws pf request env body style prompt :
  negative_prompt_throws body = true →
  run pf (fetch_sdxl request env body style prompt)
  = inl (TypeError "Cannot convert object to primitive value").
Proof. intros H. by rewrite fetch_sdxl_unfold, H. Qed.

Lemma run_fetch_sdxl pf request env body style prompt :
  negative_prompt_throws body = false →
  run pf (fetch_sdxl request env body style prompt)
  = match platform_ai pf sdxl_model (sdxl_inputs body prompt) with
    | inl e => inr (bad_gateway request env e)
    | inr imgBytes =>
        match platform_headers pf (sdxl_headers body style prompt) with
        | Some e => inr (bad_gateway request env e)
        | None =>
            inr (image_response request env (BodyAi imgBytes)
                   (sdxl_headers body style prompt))
        end
    end.
Proof.
  intros Hn. rewrite fetch_sdxl_unfold, Hn.
  unfold ai_run. unfold mbind at 1. unfold Prog_bind.
  cbn [bind try_catch run].
  destruct (platform_ai pf sdxl_model _) as [e|response]; [reflexivity|].
  cbn [settle bind]. unfold respond, new_Headers, mbind, Prog_bind.
  cbn [init_headers bind try_catch run]. fold (sdxl_headers body style prompt).
  destruct (platform_headers pf (sdxl_headers body style prompt)); reflexivity.
Qed.

Lemma run_dispatch pf request env body s :
  run pf (dispatch request env body s)
  = if is_string (Some (body_model body)) (lit "flux")
    then run pf (fetch_flux request env body (body_style body)
                   (buildStyledPrompt s (body_style body)))
    else run pf (fetch_sdxl request env body (body_style body)
                   (buildStyledPrompt s (body_style body))).
Proof. unfold dispatch. by destruct (is_string _ _). Qed.

(** The branches return, but for the substitution of the SDXL branch. *)
Lemma run_dispatch_cases pf request env body s :
  (is_string (Some (body_model body)) (lit "flux") = false
   ∧ negative_prompt_throws body = true
   ∧ ∃ e, run pf (dispatch request env body s) = inl e)
  ∨ ((is_string (Some (body_model body)) (lit "flux") = true
      ∨ negative_prompt_throws body = false)
     ∧ ∃ r, run pf (dispatch request env body s) = inr r).
Proof.
  rewrite run_dispatch. destruct (is_string _ _).
  - right. split; [by left|]. rewrite run_fetch_flux.
    repeat match goal with |- context [match ?x with _ => _ end] => destruct x end; eauto.
  - destruct (negative_prompt_throws body) eqn:En.
    + left. rewrite run_fetch_sdxl_throws by done. eauto.
    + right. split; [by right|]. rewrite run_fetch_sdxl by done.
      repeat match goal with |- context [match ?x with _ => _ end] => destruct x end; eauto.
Qed.

(** X21.  Whatever the platform answers, its errors being values that the
    [catch] blocks can convert to a string, an exception leaves [fetch]
    exactly for the [POST /api/generate] requests with valid credentials
    whose body is [null], or has a truthy [prompt] that is not a string, or
    passes validation, selects SDXL and has a truthy [negative_prompt]
    whose conversion to a string throws: an object with a property
    [toString], or an array that holds one. *)
Theorem exception_escapes_iff (pf : Platform) (request : Request) (env : Env) :
  errors_print pf →
  (∃ e, run pf (fetch request env) = inl e)
  ↔ request_pathname request = lit "/api/generate"
    ∧ request_method request = lit "POST"
    ∧ authorized request env
    ∧ ∃ body, request_json request = Some body
        ∧ (malformed_prompt body
           ∨ (is_Some (accepted_prompt body)
              ∧ is_string (Some (body_model body)) (lit "flux") = false
              ∧ negative_prompt_throws body = true)).
Proof.
  intros _.
  destruct (fetch_cases request env)
    as [[Hv E]|[(Hv & Ho & E)|[(Hv & Ho & Hg & E)|[(Hg & Ho & Hp & E)|[([Hg Hp] & Ha & E)
       |[([Hg Hp] & Ha & Hj & E)|[([Hg Hp] & Ha & body & Hj & Hacc & Hm & E)
       |[([Hg Hp] & Ha & body & Hj & Hm & e & E)
       |([Hg Hp] & Ha & body & s & Hj & Hacc & E)]]]]]]]]; rewrite E; cbn [run].
  1-7: split; [by intros [? [=]]|].
  - intros (Hg & _). rewrite Hg in Hv. by vm_compute in Hv.
  - intros (_ & Hp & _). rewrite Hp in Ho. by vm_compute in Ho.
  - intros (Hg' & _). done.
  - intros (_ & Hp' & _). done.
  - intros (_ & _ & Ha' & _). done.
  - intros (_ & _ & _ & body & Hj' & _). congruence.
  - intros (_ & _ & _ & body' & Hj' & [Hm'|[[s Hs] _]]);
      assert (body' = body) as -> by congruence; [done|congruence].
  - split; [|by eauto]. intros _. do 3 (split; [done|]). exists body. auto.
  - assert (¬ malformed_prompt body) as Hm.
    { unfold malformed_prompt, accepted_prompt in *. intros [->|[_ Hs]]; [done|].
      destruct (prop body "prompt") as [[| | |s'| |]|]; try done. by destruct (Hs s'). }
    destruct (run_dispatch_cases pf request env body s)
      as [(Hf & Hn & e & ->)|([Hf|Hn] & r & ->)].
    + split; [|by eauto]. intros _. do 3 (split; [done|]). exists body.
      split; [done|]. right. by rewrite Hacc.
    + split; [by intros [? [=]]|].
      intros (_ & _ & _ & body' & Hj' & [Hm'|(_ & Hf' & _)]);
        assert (body' = body) as -> by congruence; [done|congruence].
    + split; [by intros [? [=]]|].
      intros (_ & _ & _ & body' & Hj' & [Hm'|(_ & _ & Hn')]);
        assert (body' = body) as -> by congruence; [done|congruence].
Qed.

Lemma exception_escapes_iff_witness :
  ∃ e, run failing_platform (fetch (post_generate ∅ unprintable_body) no_config) = inl e.
Proof.
  apply (exception_escapes_iff failing_platform (post_generate ∅ unprintable_body) no_config).
  { repeat split; [intros ? ? e [= <-]; reflexivity|intros ? e [=]|intros ? e [=]]. }
  do 2 (split; [reflexivity|]). split; [exact I|].
  exists unprintable_body. split; [reflexivity|]. right.
  split; [by eexists|]. split; reflexivity.
Defined.









Lemma returns_dispatch_inv request env body s r :
  returns (dispatch request env body s) r →
  (∃ e, r = bad_gateway request env e)
  ∨ r = plain_response request env 502 (BodyText (text "Model returned no image"))
  ∨ (is_string (Some (body_model body)) (lit "flux") = true
     ∧ ∃ bytes, r = image_response request env (BodyBytes bytes)
                      (flux_headers body (body_style body)
                         (buildStyledPrompt s (body_style body))))
  ∨ (is_string (Some (body_model body)) (lit "flux") = false
     ∧ ∃ v, r = image_response request env (BodyAi v)
                  (sdxl_headers body (body_style body)
                     (buildStyledPrompt s (body_style body)))).
Proof.
  unfold dispatch. destruct (is_string _ _); rewrite ?fetch_sdxl_unfold;
    unfold fetch_flux; intros H.
  all: repeat match goal with
  | H : returns (Raise _) _ |- _ => inversion H
  | H : returns (respond _ _ _ _) _ |- _ => apply respond_inv in H
  | H : returns (upstream_error _ _ _) _ |- _ => unfold upstream_error in H
  | H : returns (try_catch _ _) _ |- _ =>
      apply returns_try_catch_inv in H as [H|(? & _ & H)]
  | H : returns (_ ≫= _) _ |- _ =>
      apply returns_bind_inv in H as (? & _ & H)
  | H : returns (match ?x with _ => _ end) _ |- _ => destruct x
  end.
  all: lazymatch goal with
  | H : _ = {| response_status := _;
               response_body := BodyText (Chars _ :: error_message ?e);
               response_headers := _ |} |- _ => left; exists e; exact H
  | H : _ = {| response_status := _;
               response_body := BodyText (text _);
               response_headers := _ |} |- _ => right; left; exact H
  | H : _ = {| response_status := _;
               response_body := BodyBytes ?b;
               response_headers := _ |} |- _ =>
      right; right; left; split; [reflexivity|]; exists b; exact H
  | H : _ = {| response_status := _;
               response_body := BodyAi ?v;
               response_headers := _ |} |- _ =>
      right; right; right; split; [reflexivity|]; exists v; exact H
  end.
Qed.

(** X25.  The statuses of the handler are 200, 204, 400, 401, 404, 405 and 502,
    and each tells how far the request got: 204 only for [OPTIONS], with no
    body; 404 only for a path that is not served; 405 only for
    [/api/generate] with another method than [POST]; 401 only for routed
    requests without valid credentials; 400 only for routed, authorized
    requests without a body that parses or without an acceptable prompt; 502
    only after validation; 200 only for [/__version] or after validation. *)
Theorem status_tells_cause (request : Request) (env : Env) (r : Response) :
  returns (fetch request env) r →
  response_status r ∈ [200; 204; 400; 401; 404; 405; 502]
  ∧ (response_status r = 204 →
     request_method request = lit "OPTIONS" ∧ response_body r = BodyNull)
  ∧ (response_status r = 404 →
     request_pathname request ≠ lit "/api/generate"
     ∧ request_pathname request ≠ lit "/__version")
  ∧ (response_status r = 405 →
     request_pathname request = lit "/api/generate"
     ∧ request_method request ≠ lit "POST")
  ∧ (response_status r = 401 → routed request ∧ ¬ authorized request env)
  ∧ (response_status r = 400 →
     routed request ∧ authorized request env
     ∧ (request_json request = None
        ∨ ∃ body, request_json request = Some body ∧ accepted_prompt body = None))
  ∧ (response_status r = 502 →
     routed request ∧ authorized request env
     ∧ ∃ body s, request_json request = Some body ∧ accepted_prompt body = Some s)
  ∧ (response_status r = 200 →
     request_pathname request = lit "/__version"
     ∨ (routed request ∧ authorized request env
        ∧ ∃ body s, request_json request = Some body ∧ accepted_prompt body = Some s)).
Proof.
  destruct (fetch_cases request env)
    as [[Hv E]|[(Hv & Ho & E)|[(Hv & Ho & Hg & E)|[(Hg & Ho & Hp & E)|[([Hg Hp] & Ha & E)
       |[([Hg Hp] & Ha & Hj & E)|[([Hg Hp] & Ha & body & Hj & Hacc & Hm & E)
       |[([Hg Hp] & Ha & body & Hj & Hm & e & E)
       |([Hg Hp] & Ha & body & s & Hj & Hacc & E)]]]]]]]]; rewrite E; intros H.
  1-7: inversion H; subst; cbn [response_status response_body plain_response];
    (split; [rewrite !elem_of_cons; auto 10|]); repeat split; try done; eauto 10.
  - inversion H.
  - apply returns_dispatch_inv in H as [[e' ->]|[->|[(_ & b & ->)|(_ & v & ->)]]];
      cbn [response_status response_body plain_response bad_gateway image_response];
      (split; [rewrite !elem_of_cons; auto 10|]); repeat split; try done; eauto 10;
      intros _; right; repeat split; eauto 10.
Qed.

Lemma status_tells_cause_witness :
  request_pathname get_missing ≠ lit "/api/generate"
  ∧ request_pathname get_missing ≠ lit "/__version".
Proof.
  destruct (status_tells_cause get_missing no_config
              (plain_response get_missing no_config 404 (BodyText (text "Not found"))))
    as (_ & _ & Hmissing & _).
  - apply returns_eq. reflexivity.
  - apply Hmissing. reflexivity.
Defined.

(** ** Headers of a response *)

Lemma overlay_keys (h : gmap string jstext) ch k :
  is_Some (overlay h ch !! k) → is_Some (h !! k) ∨ k ∈ (λ kv, lower kv.1) <$> ch.
Proof.
  unfold overlay. revert h. induction ch as [|kv ch IH]; intros h; cbn [foldl]; [by left|].
  intros [Hk|Hk]%IH.
  - unfold Headers_set in Hk. apply lookup_insert_is_Some in Hk as [<-|[_ Hk]].
    + right. rewrite fmap_cons. left.
    + by left.
  - right. rewrite fmap_cons. by right.
Qed.

Lemma of_record_keys hs k :
  is_Some (of_record hs !! k) → k ∈ (λ kv, lower kv.1) <$> hs.
Proof.
  unfold of_record.
  assert (∀ h : gmap string jstext,
            is_Some (foldl (λ h kv, Headers_set h kv.1 kv.2) h hs !! k) →
            is_Some (h !! k) ∨ k ∈ (λ kv, lower kv.1) <$> hs) as Hgen.
  { induction hs as [|kv hs IH]; intros h; cbn [foldl]; [by left|].
    intros [Hk|Hk]%IH.
    - unfold Headers_set in Hk. apply lookup_insert_is_Some in Hk as [<-|[_ Hk]].
      + right. rewrite fmap_cons. left.
      + by left.
    - right. rewrite fmap_cons. by right. }
  intros [Hk|Hk]%Hgen; [|done]. rewrite lookup_empty in Hk. by destruct Hk.
Qed.

Lemma cors_keys request env k :
  k ∈ (λ kv, lower kv.1) <$> corsHeaders request env → k ∈ cors_names.
Proof.
  intros (kv & -> & Hin)%list_elem_of_fmap. by eapply corsHeaders_names.
Qed.

Lemma expose_header request env h0 :
  Headers_get (overlay h0 (corsHeaders request env)) "Access-Control-Expose-Headers"
  = Some [Chars (join (lit ", ") (lit <$> exposed_names))].
Proof.
  unfold corsHeaders, overlay, Headers_get, Headers_set. cbv zeta.
  destruct (_ && _); cbn [foldl app fst snd]; lower_names; by lookup_inserts.
Qed.

Lemma response_keys request env r :
  returns (fetch request env) r →
  ∀ k, is_Some (response_headers r !! k) →
    k ∈ cors_names ∨ k ∈ ["content-type"; "cache-control"]%string
    ∨ k ∈ lower <$> exposed_names.
Proof.
  assert (∀ status body k,
            is_Some (response_headers (plain_response request env status body) !! k) →
            k ∈ cors_names) as Hplain.
  { intros status body k [Hk|Hk]%overlay_keys; [|by eapply cors_keys].
    rewrite lookup_empty in Hk. by destruct Hk. }
  assert (∀ body hs k,
            is_Some (response_headers (image_response request env body hs) !! k) →
            k ∈ cors_names ∨ k ∈ (λ kv, lower kv.1) <$> hs) as Himage.
  { intros body hs k [Hk|Hk]%overlay_keys; [|left; by eapply cors_keys].
    right. by apply of_record_keys. }
  destruct (fetch_cases request env)
    as [[_ E]|[(_ & _ & E)|[(_ & _ & _ & E)|[(_ & _ & _ & E)|[(_ & _ & E)
       |[(_ & _ & _ & E)|[(_ & _ & body & _ & _ & _ & E)|[(_ & _ & body & _ & _ & e & E)
       |(_ & _ & body & s & _ & _ & E)]]]]]]]]; rewrite E; intros H k Hk.
  1-7: inversion H; subst; left; by eapply Hplain.
  - inversion H.
  - apply returns_dispatch_inv in H as [[e' ->]|[->|[(_ & b & ->)|(_ & v & ->)]]].
    + left. by eapply Hplain.
    + left. by eapply Hplain.
    + apply Himage in Hk as [Hk|Hk]; [by left|right].
      unfold flux_headers in Hk. cbn [fmap list_fmap fst] in Hk. lower_names.
      cbn [fmap list_fmap exposed_names]. lower_names.
      rewrite !elem_of_cons, elem_of_nil in *. naive_solver.
    + apply Himage in Hk as [Hk|Hk]; [by left|right].
      unfold sdxl_headers in Hk. cbn [fmap list_fmap fst] in Hk. lower_names.
      cbn [fmap list_fmap exposed_names]. lower_names.
      rewrite !elem_of_cons, elem_of_nil in *. naive_solver.
Qed.

(** X26.  Every response lists the six diagnostic headers in
    [Access-Control-Expose-Headers], and every header of a response is a
    CORS header, [Content-Type], [Cache-Control], or one of the six. *)
Theorem diagnostics_are_exposed (request : Request) (env : Env) (r : Response) :
  returns (fetch request env) r →
  Headers_get (response_headers r) "Access-Control-Expose-Headers"
  = Some [Chars (join (lit ", ") (lit <$> exposed_names))]
  ∧ ∀ k, is_Some (response_headers r !! k) →
      k ∈ cors_names ∨ k ∈ ["content-type"; "cache-control"]%string
      ∨ k ∈ lower <$> exposed_names.
Proof.
  intros H. split; [|by apply (response_keys request env)].
  destruct (fetch_returns _ _ _ H) as ((_ & _ & _ & _ & He & _) & _). rewrite He.
  vm_compute. reflexivity.
Qed.

Lemma diagnostics_are_exposed_witness :
  Headers_get (response_headers
                 (plain_response get_missing no_config 404 (BodyText (text "Not found"))))
    "Access-Control-Expose-Headers"
  = Some [Chars (join (lit ", ") (lit <$> exposed_names))].
Proof.
  apply (diagnostics_are_exposed get_missing no_config). apply returns_eq. reflexivity.
Defined.

Lemma overlay_not_cors request env (h : gmap string jstext) k :
  k ∉ cors_names → overlay h (corsHeaders request env) !! k = h !! k.
Proof.
  intros Hk. apply overlay_lookup_other. intros kv Hin <-.
  apply Hk. by eapply corsHeaders_names.
Qed.

Ltac image_header :=
  unfold Headers_get; lower_names;
  rewrite overlay_not_cors
    by (unfold cors_names; rewrite !elem_of_cons, elem_of_nil; naive_solver);
  unfold of_record, flux_headers, sdxl_headers, Headers_set; cbn [foldl fst snd];
  lower_names; lookup_inserts; try apply lookup_empty; reflexivity.

(** X27.  A 200 for another path than [/__version] is an image response:
    [Content-Type: image/jpeg], [Cache-Control: no-store], an [X-Style],
    which is the style when that is a string of printable ASCII with no
    space at either end, [X-Prompt-Chars] giving the length of the composed
    prompt, and the diagnostics of its branch only: [X-Model] and [X-Steps]
    for FLUX, [X-Model], [X-Num-Steps] and [X-Guidance] for SDXL, with the
    clamped values. *)
Theorem image_responses_are_labelled (request : Request) (env : Env) (r : Response) :
  returns (fetch request env) r →
  response_status r = 200 →
  request_pathname request ≠ lit "/__version" →
  Headers_get (response_headers r) "Content-Type" = Some (text "image/jpeg")
  ∧ Headers_get (response_headers r) "Cache-Control" = Some (text "no-store")
  ∧ ∃ body s,
      request_json request = Some body ∧ accepted_prompt body = Some s
      ∧ is_Some (Headers_get (response_headers r) "X-Style")
      ∧ (∀ st, body_style body = JStr st → verbatim_header_value st = true →
           Headers_get (response_headers r) "X-Style" = Some [Chars st])
      ∧ Headers_get (response_headers r) "X-Prompt-Chars"
        = Some (ToString (JNum (number_of_nat
                   (length (buildStyledPrompt s (body_style body))))))
      ∧ if is_string (Some (body_model body)) (lit "flux")
        then Headers_get (response_headers r) "X-Model" = Some (text "flux-1-schnell")
             ∧ Headers_get (response_headers r) "X-Steps"
               = Some (ToString (JNum (clampInt (prop body "steps")
                                         (Finite 1) (Finite 8) (Finite 6))))
             ∧ Headers_get (response_headers r) "X-Num-Steps" = None
             ∧ Headers_get (response_headers r) "X-Guidance" = None
        else Headers_get (response_headers r) "X-Model" = Some (text "sdxl-base-1.0")
             ∧ Headers_get (response_headers r) "X-Num-Steps"
               = Some (ToString (JNum (clampInt (prop body "num_steps")
                                         (Finite 1) (Finite 20) (Finite 20))))
             ∧ Headers_get (response_headers r) "X-Guidance"
               = Some (ToString (JNum (clampNum (prop body "guidance")
                                         (Finite 1) (Finite 20) (Finite (15 # 2)))))
             ∧ Headers_get (response_headers r) "X-Steps" = None.
Proof.
  destruct (fetch_cases request env)
    as [[Hv E]|[(_ & _ & E)|[(_ & _ & _ & E)|[(_ & _ & _ & E)|[(_ & _ & E)
       |[(_ & _ & _ & E)|[(_ & _ & body & _ & _ & _ & E)|[(_ & _ & body & _ & _ & e & E)
       |(_ & _ & body & s & Hj & Hacc & E)]]]]]]]]; rewrite E; intros H Hs Hnv; try done.
  1-6: by inversion H; subst.
  { inversion H. }
  apply returns_dispatch_inv in H as [[e' ->]|[->|[(Hf & b & ->)|(Hf & v & ->)]]];
    [discriminate Hs|discriminate Hs|..]; cbn [response_headers image_response].
  all: split; [image_header|]; split; [image_header|]; exists body, s; rewrite Hf.
  all: do 2 (split; [done|]).
  all: match goal with |- is_Some (Headers_get ?h _) ∧ _ =>
         assert (Headers_get h "X-Style" = Some (ToString (body_style body))) as Hstyle
           by image_header
       end.
  all: split; [by rewrite Hstyle|].
  all: split; [intros st Hst _; by rewrite Hstyle, Hst|].
  all: repeat split; image_header.
Qed.

Lemma image_responses_are_labelled_witness :
  Headers_get (response_headers seeded_response) "Content-Type" = Some (text "image/jpeg")
  ∧ Headers_get (response_headers seeded_response) "Cache-Control" = Some (text "no-store").
Proof.
  destruct (image_responses_are_labelled (post_generate ∅ seeded_body) no_config
              seeded_response) as (Htype & Hcache & _).
  - apply (run_returns (answering_platform jpeg_result)). reflexivity.
  - reflexivity.
  - discriminate.
  - by split.
Defined.

Lemma rejected_prompt body :
  body ≠ JNull →
  truthy (prop body "prompt") = false
  ∨ (∃ s, prop body "prompt" = Some (JStr s) ∧ (length (trim s) < 3)%nat) →
  accepted_prompt body = None ∧ ¬ malformed_prompt body.
Proof.
  intros Hb Hp. unfold accepted_prompt, malformed_prompt. destruct Hp as [Hf|(s & Hs & Hlen)].
  - split.
    + destruct (prop body "prompt") as [[| | |s| |]|]; try done.
      destruct (Nat.leb_spec 3 (length (trim s))) as [Hlen|]; [|done].
      rewrite truthy_string in Hf. apply nonempty_false in Hf as ->.
      vm_compute in Hlen. lia.
    + intros [?|[Ht _]]; [done|]. congruence.
  - rewrite Hs. split.
    + destruct (Nat.leb_spec 3 (length (trim s))); [lia|done].
    + intros [?|[_ Hn]]; [done|]. by destruct (Hn s).
Qed.

(** X28.  A routed, authorized request whose body does not parse is answered 400
    [Invalid JSON]; one whose body is not [null] and whose prompt is falsy,
    or a string of fewer than 3 characters once trimmed, is answered 400
    [prompt is required]. *)
Theorem invalid_requests_get_400 (request : Request) (env : Env) :
  request_pathname request = lit "/api/generate" →
  request_method request = lit "POST" →
  authorized request env →
  (request_json request = None →
   fetch request env = Ret (plain_response request env 400 (BodyText (text "Invalid JSON"))))
  ∧ (∀ body, request_json request = Some body → body ≠ JNull →
       truthy (prop body "prompt") = false
       ∨ (∃ s, prop body "prompt" = Some (JStr s) ∧ (length (trim s) < 3)%nat) →
       fetch request env
       = Ret (plain_response request env 400 (BodyText (text "prompt is required")))).
Proof.
  intros Hg Hp Ha. rewrite (fetch_authorized _ _ Hg Hp Ha). split.
  - intros Hj. unfold fetch_generate. by rewrite Hj.
  - intros body Hj Hb Hbad. destruct (rejected_prompt body Hb Hbad) as [Hacc Hm].
    by destruct (fetch_generate_not_accepted request env body Hj Hacc) as [[? _]|[_ ?]].
Qed.

Lemma invalid_requests_get_400_witness :
  fetch (post_generate ∅ short_prompt_body) no_config
  = Ret (plain_response (post_generate ∅ short_prompt_body) no_config 400
           (BodyText (text "prompt is required"))).
Proof.
  destruct (invalid_requests_get_400 (post_generate ∅ short_prompt_body) no_config)
    as [_ Hprompt]; [reflexivity|reflexivity|exact I|].
  apply (Hprompt short_prompt_body); [reflexivity|discriminate|].
  right. exists (lit " hi "). split; [reflexivity|]. vm_compute. lia.
Defined.
